(** * mcu_safe_array.h: fixed-length arrays and slices with static bounds checks

    A shallow embedding of the class templates of namespace [safearray]
    ([CArrayPtr], [CSlice], [Slice], [Array]) and of the free functions
    [operator^=], [operator<<] and [cast], over a byte-addressed memory.

    - A pointer is a byte address; [p + k] on a [T*] advances by
      [k * sizeof(T)] bytes.
    - Templates are instantiated before anything runs: a member function
      template is a function from its compile-time arguments to [inst] of the
      run-time function, and a failed [static_assert] makes it [None].
    - Run-time code is a function on the memory; undefined behaviour that
      the code reaches through the C library ([memcpy] on overlapping
      regions) is [None] of [Run].
    - The memory is flat: every address holds a byte.  Whether a pointer is
      null, within its object, or still alive is the caller's contract and
      is not tracked, so what is proved of a view holds wherever it points.
    - [size_t] is an unsigned integer of [size_bits] bits; its arithmetic is
      written with the wrap-around. *)

From Stdlib Require Import ZArith List Lia Bool.
From coqutil Require Import Byte.
Import ListNotations.
Local Open Scope Z_scope.

(** ** Byte-addressed memory *)

Definition ptr : Type := Z.

Definition NULL : ptr := 0.

Definition mem : Type := ptr -> byte.

(** The [n] bytes at addresses [p], [p+1], ..., [p+n-1]. *)
Definition load_bytes (m : mem) (p : ptr) (n : nat) : list byte :=
  map (fun k => m (p + Z.of_nat k)) (seq 0 n).

(** Memory [m] with the bytes [bs] written at [p], [p+1], ... *)
Definition store_bytes (m : mem) (p : ptr) (bs : list byte) : mem :=
  fun a =>
    if (p <=? a) && (a <? p + Z.of_nat (length bs))
    then nth (Z.to_nat (a - p)) bs (m a)
    else m a.

(** ** Template instantiation *)

(** The result of instantiating a template: [None] when a static assertion
    of the instantiation fails, so that the program does not compile. *)
Definition inst (A : Type) : Type := option A.

Definition inst_bind {A B : Type} (c : inst A) (k : A -> inst B) : inst B :=
  match c with
  | Some a => k a
  | None => None
  end.

Notation "x <~ c ;; k" := (inst_bind c (fun x => k))
  (at level 61, c at next level, right associativity).

(** [static_assert(cond, msg)] *)
Definition static_assert (cond : bool) : inst unit :=
  if cond then Some tt else None.

(** ** Run-time computations *)

(** A computation on the memory; [None] is undefined behaviour. *)
Definition Run (A : Type) : Type := mem -> option (A * mem).

Definition ret {A : Type} (a : A) : Run A := fun m => Some (a, m).

Definition bind {A B : Type} (c : Run A) (k : A -> Run B) : Run B :=
  fun m =>
    match c m with
    | Some (a, m') => k a m'
    | None => None
    end.

Notation "x <- c ;; k" := (bind c (fun x => k))
  (at level 61, c at next level, right associativity).
Notation "c ;; k" := (bind c (fun _ => k))
  (at level 61, right associativity).

(** ** size_t *)

(** The target fixes the width of [size_t]; the C standard requires at least
    16 bits. *)
Class Platform : Type := {
  size_bits : Z;
  size_bits_min : 16 <= size_bits
}.

Section SizeT.
Context {P : Platform}.

Definition SIZE_MAX : Z := 2 ^ size_bits - 1.

Definition is_size_t (x : Z) : Prop := 0 <= x <= SIZE_MAX.

Definition size_wrap (x : Z) : Z := x mod 2 ^ size_bits.

Definition size_add (x y : Z) : Z := size_wrap (x + y).

Definition size_sub (x y : Z) : Z := size_wrap (x - y).

Definition size_mul (x y : Z) : Z := size_wrap (x * y).

(** [for (size_t i = start; i < L; ++i) body(i)].  The loop runs at most
    [L - start] times, which is the fuel [for_] gives it. *)
Fixpoint for_loop (fuel : nat) (i L : Z) (body : Z -> Run unit) : Run unit :=
  match fuel with
  | O => ret tt
  | S fuel' =>
      if i <? L
      then body i ;; for_loop fuel' (size_add i 1) L body
      else ret tt
  end.

Definition for_ (start L : Z) (body : Z -> Run unit) : Run unit :=
  for_loop (Z.to_nat (L - start)) start L body.

End SizeT.

(** ** Object types *)

(** What the code uses of a type [T]: its [sizeof] and its object
    representation. *)
Class CType (T : Type) : Type := {
  sizeof : Z;
  encode : T -> list byte;
  decode : list byte -> T
}.

Arguments sizeof T {_}.

(** A trivially copyable type: at least one byte, and a value is recovered
    from its representation. *)
Class CTypeOk (T : Type) {CT : CType T} : Prop := {
  sizeof_pos : 0 < sizeof T;
  encode_length : forall x : T, Z.of_nat (length (encode x)) = sizeof T;
  decode_encode : forall x : T, decode (encode x) = x
}.

(** [unsigned char] *)
#[export] Instance uchar : CType byte := {
  sizeof := 1;
  encode x := [x];
  decode bs := nth 0 bs Byte.x00
}.

#[export] Instance uchar_ok : CTypeOk byte.
Proof. split; reflexivity. Qed.

(** [x ^ v] for [x] of type [T] and [v] an [unsigned char], converted back
    to [T] (the right-hand side of [x ^= v]). *)
Class XorByte (T : Type) : Type := xor_byte : T -> byte -> T.

#[export] Instance uchar_xor : XorByte byte := byte.xor.

(** XOR with the same byte twice gives the value back. *)
Class XorByteOk (T : Type) {X : XorByte T} : Prop :=
  xor_byte_twice : forall (x : T) (v : byte), xor_byte (xor_byte x v) v = x.

#[export] Instance uchar_xor_ok : XorByteOk byte.
Proof.
  intros x v. unfold xor_byte, uchar_xor, byte.xor.
  apply byte.unsigned_inj. rewrite !byte.unsigned_of_Z.
  rewrite <- (byte.wrap_unsigned x) at 2. unfold byte.wrap.
  apply Z.bits_inj'. intros n Hn.
  destruct (Z.ltb_spec n 8) as [Hlt | Hge].
  - rewrite !Z.mod_pow2_bits_low by assumption.
    rewrite Z.lxor_spec, Z.mod_pow2_bits_low by assumption.
    rewrite Z.lxor_spec. now destruct (Z.testbit _ n), (Z.testbit _ n).
  - now rewrite !Z.mod_pow2_bits_high by lia.
Qed.

Section Access.
Context {T : Type} {CT : CType T}.

(** [p + k] for [p] of type [T*] *)
Definition ptr_add (p : ptr) (k : Z) : ptr := p + k * sizeof T.

(** Reading the object of type [T] at [p] (lvalue-to-rvalue conversion). *)
Definition load (p : ptr) : Run T :=
  fun m => Some (decode (load_bytes m p (Z.to_nat (sizeof T))), m).

(** [*p = v] *)
Definition store (p : ptr) (v : T) : Run unit :=
  fun m => Some (tt, store_bytes m p (encode v)).

(** The object of type [T] that memory [m] holds at [p + i]. *)
Definition elem (m : mem) (p : ptr) (i : Z) : T :=
  decode (load_bytes m (ptr_add p i) (Z.to_nat (sizeof T))).

End Access.

(** ** string.h *)

(** Two regions of [n] bytes share an address. *)
Definition overlap (a b : ptr) (n : Z) : bool :=
  (0 <? n) && (a <? b + n) && (b <? a + n).

(** [memcpy(dst, src, n)] copies [n] bytes from [src] to [dst] and returns
    [dst]; ISO C 7.24.2.1: if copying takes place between objects that
    overlap, the behaviour is undefined. *)
Definition memcpy (dst src : ptr) (n : Z) : Run ptr :=
  fun m =>
    if overlap dst src n then None
    else Some (dst, store_bytes m dst (load_bytes m src (Z.to_nat n))).

(** ** The assertion macros *)

(** [SLICE_METH_ASSERTS()] in a member of a class of length [L] with template
    parameters [Start] and [End]. *)
Definition SLICE_METH_ASSERTS (L Start End : Z) : inst unit :=
  _ <~ static_assert (Start <=? L) ;;
  _ <~ static_assert (End <=? L) ;;
  static_assert (End >=? Start).

(** [DATA_METH_ASSERTS()] *)
Definition DATA_METH_ASSERTS (L Offset : Z) : inst unit :=
  static_assert (Offset <? L).

(** ** CArrayPtr<T>: a pointer to a const C array with a run-time size *)

Module CArrayPtr.

Record t (T : Type) : Type := mk { _data : ptr; _size : Z }.

Arguments mk {T} _ _.
Arguments _data {T} _.
Arguments _size {T} _.

Section Methods.
Context {T : Type}.

Definition size (self : t T) : Z := _size self.

Definition data (self : t T) : ptr := _data self.

End Methods.

End CArrayPtr.

(** ** CSlice<T, L>: a const pointer to [L] instances of [T] *)

Module CSlice.

(** The object holds the pointer only; the length [L] is a parameter of the
    type. *)
Record t (T : Type) (L : Z) : Type := mk { _data : ptr }.

Arguments mk {T L} _.
Arguments _data {T L} _.

Section Methods.
Context {P : Platform} {T : Type} {CT : CType T} {L : Z}.

(** [CSlice() : _data(NULL)] *)
Definition default : t T L := mk NULL.

(** [template<size_t Offset = 0> const T *cdata() const] *)
Definition cdata (Offset : Z) : inst (t T L -> ptr) :=
  _ <~ DATA_METH_ASSERTS L Offset ;;
  Some (fun self => ptr_add (_data self) Offset).

(** [const T& operator[](size_t i) const]: the reference is the address of
    the element; no check of [i]. *)
Definition operator_index (self : t T L) (i : Z) : ptr :=
  ptr_add (_data self) i.

(** [CArrayPtr<T> operator&() const] *)
Definition operator_addr (self : t T L) : CArrayPtr.t T :=
  CArrayPtr.mk (_data self) L.

(** [template<size_t Start = 0, size_t End = L>
     CSlice<T, End - Start> cslice() const] *)
Definition cslice (Start End : Z) : inst (t T L -> t T (size_sub End Start)) :=
  _ <~ SLICE_METH_ASSERTS L Start End ;;
  cdata_Start <~ cdata Start ;;
  Some (fun self => mk (cdata_Start self)).

(** [constexpr static size_t size()] *)
Definition size : Z := L.

(** [constexpr static size_t sizeBytes()] *)
Definition sizeBytes : Z := size_mul L (sizeof T).

End Methods.

Arguments size : clear implicits.
Arguments sizeBytes {P} T {CT} L.

End CSlice.

(** ** Slice<T, L>: a pointer to [L] instances of [T] *)

Module Slice.

(** [class Slice : public CSlice<T, L>] *)
Record t (T : Type) (L : Z) : Type := mk { base : CSlice.t T L }.

Arguments mk {T L} _.
Arguments base {T L} _.

(** [explicit Slice(T *data) : CSlice<T, L>(data)] *)
Definition make {T : Type} {L : Z} (data : ptr) : t T L := mk (CSlice.mk data).

Section Methods.
Context {P : Platform} {T : Type} {CT : CType T} {L : Z}.

(** [Slice() : CSlice<T, L>()] *)
Definition default : t T L := mk CSlice.default.

(** [template<size_t Offset = 0> T *data()] *)
Definition data (Offset : Z) : inst (t T L -> ptr) :=
  cdata_Offset <~ CSlice.cdata Offset ;;
  Some (fun self => cdata_Offset (base self)).

(** [T& operator[](size_t i)]: [this->data()[i]] *)
Definition operator_index : inst (t T L -> Z -> ptr) :=
  data_0 <~ data 0 ;;
  Some (fun self i => ptr_add (data_0 self) i).

(** [void fill(T val)] *)
Definition fill : inst (t T L -> T -> Run unit) :=
  index <~ operator_index ;;
  Some (fun self val => for_ 0 L (fun i => store (index self i) val)).

(** [template<size_t L2> void assign(CSlice<T, L2> data)] *)
Definition assign (L2 : Z) : inst (t T L -> CSlice.t T L2 -> Run unit) :=
  _ <~ static_assert (L2 <=? L) ;;
  data_0 <~ data 0 ;;
  cdata_0 <~ CSlice.cdata (L := L2) 0 ;;
  Some (fun self data =>
          _ <- memcpy (data_0 self) (cdata_0 data) (CSlice.sizeBytes T L2) ;;
          ret tt).

(** [template<size_t Start = 0, size_t End = L>
     Slice<T, End - Start> slice()] *)
Definition slice (Start End : Z) : inst (t T L -> t T (size_sub End Start)) :=
  _ <~ SLICE_METH_ASSERTS L Start End ;;
  data_0 <~ data 0 ;;
  Some (fun self => make (ptr_add (data_0 self) Start)).

(** Inherited from [CSlice]. *)
Definition cslice (Start End : Z)
  : inst (t T L -> CSlice.t T (size_sub End Start)) :=
  f <~ CSlice.cslice Start End ;;
  Some (fun self => f (base self)).

Definition operator_addr (self : t T L) : CArrayPtr.t T :=
  CSlice.operator_addr (base self).

End Methods.

End Slice.

(** ** Array<T, L>: an array with a fixed length known at compile time *)

Module Array.

(** The class has the single member [T _data[L]] and is declared
    [__attribute__((packed))]: the object is the C array, and an [Array] is
    known by the address of its storage.  Copy construction and copy
    assignment are deleted, so an array is only ever reached through a
    reference. *)
Record t (T : Type) (L : Z) : Type := mk { _data : ptr }.

Arguments mk {T L} _.
Arguments _data {T L} _.

Section Methods.
Context {P : Platform} {T : Type} {CT : CType T} {L : Z}.

(** [sizeof(Array<T, L>)]: that of the C array [T[L]]
    (the header asserts it for [Array<char, 10>]). *)
Definition sizeof_ : Z := L * sizeof T.

(** [template<size_t Offset = 0> const T *cdata() const] *)
Definition cdata (Offset : Z) : inst (t T L -> ptr) :=
  _ <~ DATA_METH_ASSERTS L Offset ;;
  Some (fun self => ptr_add (_data self) Offset).

(** [template<size_t Offset = 0> T *data()] *)
Definition data (Offset : Z) : inst (t T L -> ptr) :=
  cdata_Offset <~ cdata Offset ;;
  Some (fun self => cdata_Offset self).

(** [T& operator[](size_t i)] and its const overload: [this->_data[i]] *)
Definition operator_index (self : t T L) (i : Z) : ptr :=
  ptr_add (_data self) i.

(** [CArrayPtr<T> operator&() const] *)
Definition operator_addr (self : t T L) : CArrayPtr.t T :=
  CArrayPtr.mk (_data self) L.

(** [constexpr static size_t size()] *)
Definition size : Z := L.

(** [template<size_t Start = 0, size_t End = L>
     CSlice<T, End - Start> cslice() const] *)
Definition cslice (Start End : Z)
  : inst (t T L -> CSlice.t T (size_sub End Start)) :=
  _ <~ SLICE_METH_ASSERTS L Start End ;;
  Some (fun self => CSlice.mk (ptr_add (_data self) Start)).

(** [template<size_t Start = 0, size_t End = L>
     Slice<T, End - Start> slice()] *)
Definition slice (Start End : Z)
  : inst (t T L -> Slice.t T (size_sub End Start)) :=
  _ <~ SLICE_METH_ASSERTS L Start End ;;
  Some (fun self => Slice.make (ptr_add (_data self) Start)).

(** [void fill(T val)]: [this->slice().fill(val)] *)
Definition fill : inst (t T L -> T -> Run unit) :=
  slice_ <~ slice 0 L ;;
  fill_ <~ Slice.fill ;;
  Some (fun self val => fill_ (slice_ self) val).

(** [template<size_t L2> void assign(CSlice<T, L2> data)] *)
Definition assign (L2 : Z) : inst (t T L -> CSlice.t T L2 -> Run unit) :=
  _ <~ static_assert (L2 <=? L) ;;
  slice_ <~ slice 0 L ;;
  assign_ <~ Slice.assign L2 ;;
  Some (fun self data => assign_ (slice_ self) data).

End Methods.

Arguments size : clear implicits.
Arguments sizeof_ T {CT} L.

End Array.

(** ** Free functions of the namespace *)

Section Functions.
Context {P : Platform} {T : Type} {CT : CType T}.

(** [template<typename T, size_t L>
     Array<T, L>& operator^=(Array<T, L>& array, unsigned char v)].
    The loop is [for (size_t i; i < L; ++i)]: the counter has no
    initialiser, so the loop starts from whatever value its storage holds.
    That value is the argument [i]. *)
Definition operator_xor_assign {X : XorByte T} {L : Z}
  (i : Z) (array : Array.t T L) (v : byte) : Run (Array.t T L) :=
  for_ i L (fun i =>
              let r := Array.operator_index array i in
              x <- load r ;;
              store r (xor_byte x v)) ;;
  ret array.

(** [template<typename T, size_t L1, size_t L2>
     Slice<T, L1 - L2> operator<<(Slice<T, L1> dest, CSlice<T, L2> data)] *)
Definition operator_shl {L1 L2 : Z}
  : inst (Slice.t T L1 -> CSlice.t T L2 -> Run (Slice.t T (size_sub L1 L2))) :=
  assign_ <~ Slice.assign L2 ;;
  slice_ <~ Slice.slice L2 L1 ;;
  Some (fun dest data =>
          _ <- assign_ dest data ;;
          ret (slice_ dest)).

(** [template<typename T, size_t L1, size_t L2>
     Slice<T, L1 - L2> operator<<(Array<T, L1>& dest, CSlice<T, L2> data)]:
    [dest.slice() << data].  [dest.slice()] has type [Slice<T, L1 - 0>]. *)
Definition operator_shl_Array {L1 L2 : Z}
  : inst (Array.t T L1 -> CSlice.t T L2 ->
          Run (Slice.t T (size_sub (size_sub L1 0) L2))) :=
  slice_ <~ Array.slice 0 L1 ;;
  shl <~ operator_shl ;;
  Some (fun dest data => shl (slice_ dest) data).

End Functions.

(** [static_assert(sizeof(Array<char, 10>) == 10, "Bad definition of Array")]
    at namespace scope; [char] has the size of [unsigned char]. *)
Definition Array_definition_check : inst unit :=
  static_assert (Array.sizeof_ byte 10 =? 10).

(** [using CByteArrayPtr = CArrayPtr<unsigned char>] and the aliases
    [CByteSlice<L>], [ByteSlice<L>], [ByteArray<L>] *)
Definition CByteArrayPtr : Type := CArrayPtr.t byte.

Definition CByteSlice (L : Z) : Type := CSlice.t byte L.

Definition ByteSlice (L : Z) : Type := Slice.t byte L.

Definition ByteArray (L : Z) : Type := Array.t byte L.

(** [template<typename T, size_t L>
     const T *cast(const ByteArray<L>& array)] *)
Definition cast {P : Platform} (T : Type) {CT : CType T} {L : Z}
  : inst (ByteArray L -> ptr) :=
  _ <~ static_assert (sizeof T <=? Array.sizeof_ byte L) ;;
  cdata_0 <~ Array.cdata 0 ;;
  Some (fun array => cdata_0 array).

(** [template<typename T, size_t L> T *cast(ByteArray<L>& array)]: the const
    overload, with the constness cast away. *)
Definition cast_mut {P : Platform} (T : Type) {CT : CType T} {L : Z}
  : inst (ByteArray L -> ptr) :=
  cast_const <~ cast T ;;
  Some (fun array => cast_const array).

(** Modelled from the spec: the structured message type of the parsing
    scenario (section 8), a packed struct of a tag byte, a 32-byte payload
    and a 4-byte id, 37 bytes in all.  The repository's test that declares
    it is not part of the sources. *)
Record Msg : Type := mkMsg {
  msg_tag : byte;
  msg_payload : list byte;
  msg_id : list byte
}.

#[export] Instance Msg_ctype : CType Msg := {
  sizeof := 37;
  encode x := msg_tag x :: msg_payload x ++ msg_id x;
  decode bs :=
    {| msg_tag := nth 0 bs Byte.x00;
       msg_payload := firstn 32 (skipn 1 bs);
       msg_id := firstn 4 (skipn 33 bs) |}
}.

(** Modelled from the spec: the parsing scenario (section 8).  A 37-byte
    [ByteArray] is written by chained [<<] from a 1-byte tag, a 32-byte
    filler and a 4-byte id, then [cast] to [Msg] and read. *)
Definition parsing_scenario {P : Platform}
  : inst (ByteArray 37 -> CByteSlice 1 -> CByteSlice 32 -> CByteSlice 4 ->
          Run Msg) :=
  write_tag <~ operator_shl_Array ;;
  write_payload <~ operator_shl ;;
  write_id <~ operator_shl ;;
  cast_Msg <~ cast Msg ;;
  Some (fun buf tag_ filler id_ =>
          rest1 <- write_tag buf tag_ ;;
          rest2 <- write_payload rest1 filler ;;
          _ <- write_id rest2 id_ ;;
          load (cast_Msg buf)).

(** ** Vocabulary of the statements *)

(** The instantiation compiles. *)
Definition instantiates {A : Type} (i : inst A) : Prop :=
  exists f, i = Some f.

(** The length a view carries in its type. *)
Definition CSlice_length {T : Type} {L : Z} (s : CSlice.t T L) : Z :=
  CSlice.size L.

Definition Slice_length {T : Type} {L : Z} (s : Slice.t T L) : Z :=
  CSlice.size L.

(** A view or array of [L] objects of type [T] refers to an object of
    [L * sizeof(T)] bytes, and the size of an object is a [size_t]. *)
Definition object_size_ok {P : Platform} (T : Type) {CT : CType T} (L : Z)
  : Prop :=
  is_size_t (L * sizeof T).

(** The destination at [dst] after a copy of [L2] elements from [src]:
    its first [L2] elements are those the source had, every later element
    is as it was.  [m] is the memory before the call, [m'] after. *)
Definition copies_prefix {T : Type} {CT : CType T}
  (L2 : Z) (dst src : ptr) (m m' : mem) : Prop :=
  (forall i, 0 <= i < L2 -> elem (T := T) m' dst i = elem (T := T) m src i) /\
  (forall i, L2 <= i -> elem (T := T) m' dst i = elem (T := T) m dst i).

(** [dest.assign(source)], when it compiles, runs and copies the prefix. *)
Definition Slice_assign_copies {P : Platform} {T : Type} {CT : CType T}
  {L L2 : Z} (dest : Slice.t T L) (source : CSlice.t T L2) (m : mem) : Prop :=
  forall f, Slice.assign L2 = Some f ->
    exists m', f dest source m = Some (tt, m') /\
      copies_prefix (T := T) L2 (CSlice._data (Slice.base dest))
        (CSlice._data source) m m'.

Definition Array_assign_copies {P : Platform} {T : Type} {CT : CType T}
  {L L2 : Z} (dest : Array.t T L) (source : CSlice.t T L2) (m : mem) : Prop :=
  forall f, Array.assign L2 = Some f ->
    exists m', f dest source m = Some (tt, m') /\
      copies_prefix (T := T) L2 (Array._data dest) (CSlice._data source) m m'.

(** [dest.fill(v)], when it compiles, runs and leaves [v] at every index. *)
Definition Slice_fill_sets {P : Platform} {T : Type} {CT : CType T}
  {L : Z} (dest : Slice.t T L) (v : T) (m : mem) : Prop :=
  forall f, Slice.fill = Some f ->
    exists m', f dest v m = Some (tt, m') /\
      forall i, 0 <= i < L ->
        elem (T := T) m' (CSlice._data (Slice.base dest)) i = v.

Definition Array_fill_sets {P : Platform} {T : Type} {CT : CType T}
  {L : Z} (dest : Array.t T L) (v : T) (m : mem) : Prop :=
  forall f, Array.fill = Some f ->
    exists m', f dest v m = Some (tt, m') /\
      forall i, 0 <= i < L -> elem (T := T) m' (Array._data dest) i = v.

(** [dest << source], when it compiles, runs, copies the source into the
    prefix of the destination and returns the view of the [L1 - L2] elements
    after it. *)
Definition Slice_write_advances {P : Platform} {T : Type} {CT : CType T}
  {L1 L2 : Z} (dest : Slice.t T L1) (source : CSlice.t T L2) (m : mem)
  : Prop :=
  forall f, operator_shl = Some f ->
    exists rest m', f dest source m = Some (rest, m') /\
      copies_prefix (T := T) L2 (CSlice._data (Slice.base dest))
        (CSlice._data source) m m' /\
      Slice_length rest = L1 - L2 /\
      CSlice._data (Slice.base rest) =
      ptr_add (T := T) (CSlice._data (Slice.base dest)) L2.

Definition Array_write_advances {P : Platform} {T : Type} {CT : CType T}
  {L1 L2 : Z} (dest : Array.t T L1) (source : CSlice.t T L2) (m : mem)
  : Prop :=
  forall f, operator_shl_Array = Some f ->
    exists rest m', f dest source m = Some (rest, m') /\
      copies_prefix (T := T) L2 (Array._data dest) (CSlice._data source)
        m m' /\
      Slice_length rest = L1 - L2 /\
      CSlice._data (Slice.base rest) = ptr_add (T := T) (Array._data dest) L2.

(** The [n] bytes at [a] and the [k] bytes at [b] share no address. *)
Definition separate (a : ptr) (n : Z) (b : ptr) (k : Z) : Prop :=
  a + n <= b \/ b + k <= a.

(** A target with a 32-bit [size_t], and a memory whose byte at address [a]
    is [a mod 256], for concrete runs. *)
Definition target32 : Platform :=
  {| size_bits := 32; size_bits_min := ltac:(lia) |}.

Definition mem_of_addresses : mem := fun a => byte.of_Z a.

(** A memory of zeros but for the two bytes 9, 9 at addresses 20 and 21. *)
Definition mem_zeros_and_nines : mem :=
  fun a => if (20 <=? a) && (a <? 22) then byte.of_Z 9 else Byte.x00.

(** One behaviour that the C standard leaves open to [memcpy] on
    overlapping regions, and the one of a small C library: the copy byte by
    byte from the lowest address up, [while (n--) *d++ = *s++]. *)
Fixpoint copy_bytes_forward (n : nat) (dst src : ptr) (m : mem) : mem :=
  match n with
  | O => m
  | S n' => copy_bytes_forward n' (dst + 1) (src + 1) (store_bytes m dst [m src])
  end.

Ltac bool_to_Z :=
  repeat match goal with
    | H : _ && _ = true |- _ => apply andb_true_iff in H; destruct H
    | H : _ && _ = false |- _ => apply andb_false_iff in H; destruct H
    | H : (_ <=? _) = true |- _ => apply Z.leb_le in H
    | H : (_ <=? _) = false |- _ => apply Z.leb_gt in H
    | H : (_ <? _) = true |- _ => apply Z.ltb_lt in H
    | H : (_ <? _) = false |- _ => apply Z.ltb_ge in H
    end.

(** * Properties *)

(** ** size_t arithmetic without wrap-around *)

Section SizeFacts.
Context {P : Platform}.

Lemma size_modulus_ge : 65536 <= 2 ^ size_bits.
Proof.
  change 65536 with (2 ^ 16).
  apply Z.pow_le_mono_r; [lia | apply size_bits_min].
Qed.

Lemma size_wrap_small (x : Z) : is_size_t x -> size_wrap x = x.
Proof.
  unfold is_size_t, SIZE_MAX, size_wrap. intros H.
  apply Z.mod_small. lia.
Qed.

Lemma small_is_size_t (x : Z) : 0 <= x < 65536 -> is_size_t x.
Proof.
  pose proof size_modulus_ge. unfold is_size_t, SIZE_MAX. lia.
Qed.

Lemma size_sub_small (a b : Z) :
  is_size_t a -> 0 <= b <= a -> size_sub a b = a - b.
Proof.
  intros Ha Hb. unfold size_sub. apply size_wrap_small.
  unfold is_size_t in *. lia.
Qed.

Lemma size_add_small (a b : Z) :
  is_size_t (a + b) -> size_add a b = a + b.
Proof. apply size_wrap_small. Qed.

Lemma size_mul_small (a b : Z) :
  is_size_t (a * b) -> size_mul a b = a * b.
Proof. apply size_wrap_small. Qed.

(** The fuel of [for_] is enough: with more of it the loop does the same, so
    the loop has ended when the fuel is spent. *)
Lemma for_loop_fuel (L : Z) (body : Z -> Run unit) :
  is_size_t L ->
  forall (n : nat) (i : Z) (m : mem),
    0 <= i -> (Z.to_nat (L - i) <= n)%nat ->
    for_loop n i L body m = for_ i L body m.
Proof.
  intros HL. unfold for_.
  induction n as [|n IH]; intros i m Hi Hn.
  - replace (Z.to_nat (L - i)) with 0%nat by lia. reflexivity.
  - cbn [for_loop]. destruct (i <? L) eqn:E.
    + apply Z.ltb_lt in E.
      replace (Z.to_nat (L - i)) with (S (Z.to_nat (L - (i + 1)))) by lia.
      cbn [for_loop].
      replace (i <? L) with true by (symmetry; apply Z.ltb_lt; lia).
      rewrite size_add_small by (unfold is_size_t in *; lia).
      unfold bind. destruct (body i m) as [[[] m1]|]; [|reflexivity].
      apply IH; lia.
    + apply Z.ltb_ge in E.
      replace (Z.to_nat (L - i)) with 0%nat by lia. reflexivity.
Qed.

End SizeFacts.

(** ** Bytes in memory *)

Lemma load_bytes_length (m : mem) (p : ptr) (n : nat) :
  length (load_bytes m p n) = n.
Proof. unfold load_bytes. now rewrite length_map, length_seq. Qed.

Lemma nth_load_bytes (m : mem) (p : ptr) (n k : nat) (d : byte) :
  (k < n)%nat -> nth k (load_bytes m p n) d = m (p + Z.of_nat k).
Proof.
  intros Hk. unfold load_bytes.
  rewrite nth_indep with (d' := m (p + Z.of_nat 0))
    by now rewrite length_map, length_seq.
  rewrite (map_nth (fun k => m (p + Z.of_nat k)) (seq 0 n) O k).
  now rewrite seq_nth.
Qed.

(** Two loads agree when the memories agree byte by byte. *)
Lemma load_bytes_ext (m1 m2 : mem) (p q : ptr) (n : nat) :
  (forall k, 0 <= k < Z.of_nat n -> m1 (p + k) = m2 (q + k)) ->
  load_bytes m1 p n = load_bytes m2 q n.
Proof.
  intros H. unfold load_bytes. apply map_ext_in.
  intros k Hk. apply in_seq in Hk. apply H. lia.
Qed.

Lemma store_bytes_inside (m : mem) (p a : ptr) (bs : list byte) (d : byte) :
  p <= a < p + Z.of_nat (length bs) ->
  store_bytes m p bs a = nth (Z.to_nat (a - p)) bs d.
Proof.
  intros H. unfold store_bytes.
  replace ((p <=? a) && (a <? p + Z.of_nat (length bs))) with true
    by (symmetry; apply andb_true_iff; split; [apply Z.leb_le | apply Z.ltb_lt]; lia).
  apply nth_indep. lia.
Qed.

Lemma store_bytes_outside (m : mem) (p a : ptr) (bs : list byte) :
  a < p \/ p + Z.of_nat (length bs) <= a ->
  store_bytes m p bs a = m a.
Proof.
  intros H. unfold store_bytes.
  destruct (p <=? a) eqn:E1; [|reflexivity].
  destruct (a <? p + Z.of_nat (length bs)) eqn:E2; [|reflexivity].
  apply Z.leb_le in E1. apply Z.ltb_lt in E2. lia.
Qed.

(** What was stored is what is read back. *)
Lemma load_store_bytes (m : mem) (p : ptr) (bs : list byte) :
  load_bytes (store_bytes m p bs) p (length bs) = bs.
Proof.
  apply nth_ext with (d := Byte.x00) (d' := Byte.x00).
  - apply load_bytes_length.
  - intros k Hk. rewrite load_bytes_length in Hk.
    rewrite nth_load_bytes by assumption.
    rewrite store_bytes_inside with (d := Byte.x00) by lia.
    f_equal. lia.
Qed.

(** A byte of the destination after [memcpy]. *)
Lemma store_load_bytes_at (m : mem) (dst src a : ptr) (n : nat) :
  store_bytes m dst (load_bytes m src n) a =
  if (dst <=? a) && (a <? dst + Z.of_nat n) then m (src + (a - dst)) else m a.
Proof.
  destruct ((dst <=? a) && (a <? dst + Z.of_nat n)) eqn:E.
  - apply andb_true_iff in E. destruct E as [E1 E2].
    apply Z.leb_le in E1. apply Z.ltb_lt in E2.
    rewrite store_bytes_inside with (d := Byte.x00)
      by (rewrite load_bytes_length; lia).
    rewrite nth_load_bytes by lia. f_equal. lia.
  - apply store_bytes_outside. rewrite load_bytes_length.
    apply andb_false_iff in E. destruct E as [E | E].
    + apply Z.leb_gt in E. lia.
    + apply Z.ltb_ge in E. lia.
Qed.

(** ** What each template instantiates to *)

Section Instantiation.
Context {P : Platform} {T : Type} {CT : CType T}.

Lemma ptr_add_0 (p : ptr) : ptr_add (T := T) p 0 = p.
Proof. unfold ptr_add. lia. Qed.

Lemma ptr_add_add (p : ptr) (i j : Z) :
  ptr_add (T := T) (ptr_add (T := T) p i) j = ptr_add (T := T) p (i + j).
Proof. unfold ptr_add. lia. Qed.

Lemma SLICE_METH_ASSERTS_eq (L Start End : Z) :
  SLICE_METH_ASSERTS L Start End =
  if (Start <=? L) && (End <=? L) && (Start <=? End) then Some tt else None.
Proof.
  unfold SLICE_METH_ASSERTS, static_assert, inst_bind.
  rewrite Z.geb_leb.
  destruct (Start <=? L), (End <=? L), (Start <=? End); reflexivity.
Qed.

Lemma CSlice_cdata_eq (L Offset : Z) :
  CSlice.cdata (T := T) (L := L) Offset =
  if Offset <? L
  then Some (fun self => ptr_add (CSlice._data self) Offset)
  else None.
Proof.
  unfold CSlice.cdata, DATA_METH_ASSERTS, static_assert, inst_bind.
  destruct (Offset <? L); reflexivity.
Qed.

Lemma Slice_data_eq (L Offset : Z) :
  Slice.data (T := T) (L := L) Offset =
  if Offset <? L
  then Some (fun self => ptr_add (CSlice._data (Slice.base self)) Offset)
  else None.
Proof.
  unfold Slice.data. rewrite CSlice_cdata_eq.
  destruct (Offset <? L); reflexivity.
Qed.

Lemma Array_cdata_eq (L Offset : Z) :
  Array.cdata (T := T) (L := L) Offset =
  if Offset <? L
  then Some (fun self => ptr_add (Array._data self) Offset)
  else None.
Proof.
  unfold Array.cdata, DATA_METH_ASSERTS, static_assert, inst_bind.
  destruct (Offset <? L); reflexivity.
Qed.

Lemma Array_data_eq (L Offset : Z) :
  Array.data (T := T) (L := L) Offset =
  if Offset <? L
  then Some (fun self => ptr_add (Array._data self) Offset)
  else None.
Proof.
  unfold Array.data. rewrite Array_cdata_eq.
  destruct (Offset <? L); reflexivity.
Qed.

Lemma CSlice_cslice_eq (L Start End : Z) :
  CSlice.cslice (T := T) (L := L) Start End =
  if (Start <=? L) && (End <=? L) && (Start <=? End) && (Start <? L)
  then Some (fun self => CSlice.mk (ptr_add (CSlice._data self) Start))
  else None.
Proof.
  unfold CSlice.cslice. rewrite SLICE_METH_ASSERTS_eq, CSlice_cdata_eq.
  destruct ((Start <=? L) && (End <=? L) && (Start <=? End)); simpl;
    [destruct (Start <? L)|]; reflexivity.
Qed.

Lemma Slice_cslice_eq (L Start End : Z) :
  Slice.cslice (T := T) (L := L) Start End =
  if (Start <=? L) && (End <=? L) && (Start <=? End) && (Start <? L)
  then Some (fun self =>
               CSlice.mk (ptr_add (CSlice._data (Slice.base self)) Start))
  else None.
Proof.
  unfold Slice.cslice. rewrite CSlice_cslice_eq.
  destruct ((Start <=? L) && (End <=? L) && (Start <=? End) && (Start <? L));
    reflexivity.
Qed.

Lemma Slice_slice_eq (L Start End : Z) :
  Slice.slice (T := T) (L := L) Start End =
  if (Start <=? L) && (End <=? L) && (Start <=? End) && (0 <? L)
  then Some (fun self =>
               Slice.make
                 (ptr_add (ptr_add (CSlice._data (Slice.base self)) 0) Start))
  else None.
Proof.
  unfold Slice.slice. rewrite SLICE_METH_ASSERTS_eq, Slice_data_eq.
  destruct ((Start <=? L) && (End <=? L) && (Start <=? End)); simpl;
    [destruct (0 <? L)|]; reflexivity.
Qed.

Lemma Array_cslice_eq (L Start End : Z) :
  Array.cslice (T := T) (L := L) Start End =
  if (Start <=? L) && (End <=? L) && (Start <=? End)
  then Some (fun self => CSlice.mk (ptr_add (Array._data self) Start))
  else None.
Proof.
  unfold Array.cslice. rewrite SLICE_METH_ASSERTS_eq.
  destruct ((Start <=? L) && (End <=? L) && (Start <=? End)); reflexivity.
Qed.

Lemma Array_slice_eq (L Start End : Z) :
  Array.slice (T := T) (L := L) Start End =
  if (Start <=? L) && (End <=? L) && (Start <=? End)
  then Some (fun self => Slice.make (ptr_add (Array._data self) Start))
  else None.
Proof.
  unfold Array.slice. rewrite SLICE_METH_ASSERTS_eq.
  destruct ((Start <=? L) && (End <=? L) && (Start <=? End)); reflexivity.
Qed.

Lemma Slice_operator_index_eq (L : Z) :
  Slice.operator_index (T := T) (L := L) =
  if 0 <? L
  then Some (fun self i =>
               ptr_add (ptr_add (CSlice._data (Slice.base self)) 0) i)
  else None.
Proof.
  unfold Slice.operator_index. rewrite Slice_data_eq.
  destruct (0 <? L); reflexivity.
Qed.

Lemma Slice_fill_eq (L : Z) :
  Slice.fill (T := T) (L := L) =
  if 0 <? L
  then Some (fun self val =>
               for_ 0 L (fun i =>
                 store (ptr_add (ptr_add (CSlice._data (Slice.base self)) 0) i)
                       val))
  else None.
Proof.
  unfold Slice.fill. rewrite Slice_operator_index_eq.
  destruct (0 <? L); reflexivity.
Qed.

Lemma Slice_assign_eq (L L2 : Z) :
  Slice.assign (T := T) (L := L) L2 =
  if (L2 <=? L) && (0 <? L) && (0 <? L2)
  then Some (fun self data =>
               _ <- memcpy (ptr_add (CSlice._data (Slice.base self)) 0)
                           (ptr_add (CSlice._data data) 0)
                           (CSlice.sizeBytes T L2) ;;
               ret tt)
  else None.
Proof.
  unfold Slice.assign, static_assert.
  rewrite Slice_data_eq, CSlice_cdata_eq.
  destruct (L2 <=? L), (0 <? L), (0 <? L2); reflexivity.
Qed.

End Instantiation.

(** ** Pointers to the data: [cdata<Offset>()] and [data<Offset>()] *)

Section DataPointers.
Context {P : Platform} {T : Type} {CT : CType T}.

(** C8.  On [CSlice], [Slice] and [Array] of length [L], [cdata<Offset>()]
    and [data<Offset>()] compile exactly when [Offset < L], and the compiled
    call returns the base data pointer advanced by [Offset] elements. *)
Theorem data_offset_checked (L Offset : Z) :
  (instantiates (CSlice.cdata (T := T) (L := L) Offset) <-> Offset < L) /\
  (instantiates (Slice.data (T := T) (L := L) Offset) <-> Offset < L) /\
  (instantiates (Array.cdata (T := T) (L := L) Offset) <-> Offset < L) /\
  (instantiates (Array.data (T := T) (L := L) Offset) <-> Offset < L) /\
  (forall f, CSlice.cdata Offset = Some f ->
     forall self : CSlice.t T L,
       f self = ptr_add (CSlice._data self) Offset) /\
  (forall f, Slice.data Offset = Some f ->
     forall self : Slice.t T L,
       f self = ptr_add (CSlice._data (Slice.base self)) Offset) /\
  (forall f, Array.cdata Offset = Some f ->
     forall self : Array.t T L,
       f self = ptr_add (Array._data self) Offset) /\
  (forall f, Array.data Offset = Some f ->
     forall self : Array.t T L,
       f self = ptr_add (Array._data self) Offset).
Proof.
  unfold instantiates.
  rewrite CSlice_cdata_eq, Slice_data_eq, Array_cdata_eq, Array_data_eq.
  destruct (Offset <? L) eqn:E; bool_to_Z;
    repeat split; intros; try lia; try discriminate; eauto;
    try (destruct H; discriminate);
    match goal with H : Some _ = Some _ |- _ => injection H as <- end;
    reflexivity.
Qed.

End DataPointers.

(** ** Sub-views: [cslice<Start, End>()] and [slice<Start, End>()] *)

Section SubViews.
Context {P : Platform} {T : Type} {CT : CType T}.

(** [Array::cslice] and [Array::slice] compile exactly within the bounds of
    the assertion macro. *)
Lemma Array_cslice_compiles (L Start End : Z) :
  instantiates (Array.cslice (T := T) (L := L) Start End) <->
  Start <= End <= L.
Proof.
  unfold instantiates. rewrite Array_cslice_eq.
  destruct ((Start <=? L) && (End <=? L) && (Start <=? End)) eqn:E;
    bool_to_Z; split; intros Hc; eauto; try lia;
    destruct Hc; discriminate.
Qed.

Lemma Array_slice_compiles (L Start End : Z) :
  instantiates (Array.slice (T := T) (L := L) Start End) <->
  Start <= End <= L.
Proof.
  unfold instantiates. rewrite Array_slice_eq.
  destruct ((Start <=? L) && (End <=? L) && (Start <=? End)) eqn:E;
    bool_to_Z; split; intros Hc; eauto; try lia;
    destruct Hc; discriminate.
Qed.

(** [CSlice::cslice] goes through [cdata<Start>()], whose assertion also
    wants [Start < L]. *)
Lemma CSlice_cslice_compiles (L Start End : Z) :
  instantiates (CSlice.cslice (T := T) (L := L) Start End) <->
  Start <= End <= L /\ Start < L.
Proof.
  unfold instantiates. rewrite CSlice_cslice_eq.
  destruct ((Start <=? L) && (End <=? L) && (Start <=? End) && (Start <? L))
    eqn:E; bool_to_Z; split; intros Hc; eauto; try lia;
    destruct Hc; discriminate.
Qed.

(** [Slice::slice] goes through [data<0>()], whose assertion wants
    [0 < L]. *)
Lemma Slice_slice_compiles (L Start End : Z) :
  instantiates (Slice.slice (T := T) (L := L) Start End) <->
  Start <= End <= L /\ 0 < L.
Proof.
  unfold instantiates. rewrite Slice_slice_eq.
  destruct ((Start <=? L) && (End <=? L) && (Start <=? End) && (0 <? L))
    eqn:E; bool_to_Z; split; intros Hc; eauto; try lia;
    destruct Hc; discriminate.
Qed.

(** A compiled sub-view has length [End - Start] and its element [i] is the
    element [Start + i] of the original. *)
Lemma CSlice_cslice_result (L Start End : Z) f :
  is_size_t L -> 0 <= Start ->
  CSlice.cslice (T := T) (L := L) Start End = Some f ->
  forall self : CSlice.t T L,
    CSlice_length (f self) = End - Start /\
    forall m i,
      elem (T := T) m (CSlice._data (f self)) i =
      elem (T := T) m (CSlice._data self) (Start + i).
Proof.
  intros HL HS Hf self. rewrite CSlice_cslice_eq in Hf.
  destruct ((Start <=? L) && (End <=? L) && (Start <=? End) && (Start <? L))
    eqn:E; [|discriminate].
  injection Hf as <-. bool_to_Z. split.
  - unfold CSlice_length, CSlice.size. apply size_sub_small.
    + unfold is_size_t in *. lia.
    + lia.
  - intros m i. unfold elem. simpl. now rewrite ptr_add_add.
Qed.

Lemma Slice_slice_result (L Start End : Z) f :
  is_size_t L -> 0 <= Start ->
  Slice.slice (T := T) (L := L) Start End = Some f ->
  forall self : Slice.t T L,
    Slice_length (f self) = End - Start /\
    forall m i,
      elem (T := T) m (CSlice._data (Slice.base (f self))) i =
      elem (T := T) m (CSlice._data (Slice.base self)) (Start + i).
Proof.
  intros HL HS Hf self. rewrite Slice_slice_eq in Hf.
  destruct ((Start <=? L) && (End <=? L) && (Start <=? End) && (0 <? L))
    eqn:E; [|discriminate].
  injection Hf as <-. bool_to_Z. split.
  - unfold Slice_length, CSlice.size. apply size_sub_small.
    + unfold is_size_t in *. lia.
    + lia.
  - intros m i. unfold elem. simpl. now rewrite ptr_add_0, ptr_add_add.
Qed.

Lemma Array_cslice_result (L Start End : Z) f :
  is_size_t L -> 0 <= Start ->
  Array.cslice (T := T) (L := L) Start End = Some f ->
  forall self : Array.t T L,
    CSlice_length (f self) = End - Start /\
    forall m i,
      elem (T := T) m (CSlice._data (f self)) i =
      elem (T := T) m (Array._data self) (Start + i).
Proof.
  intros HL HS Hf self. rewrite Array_cslice_eq in Hf.
  destruct ((Start <=? L) && (End <=? L) && (Start <=? End)) eqn:E;
    [|discriminate].
  injection Hf as <-. bool_to_Z. split.
  - unfold CSlice_length, CSlice.size. apply size_sub_small.
    + unfold is_size_t in *. lia.
    + lia.
  - intros m i. unfold elem. simpl. now rewrite ptr_add_add.
Qed.

Lemma Array_slice_result (L Start End : Z) f :
  is_size_t L -> 0 <= Start ->
  Array.slice (T := T) (L := L) Start End = Some f ->
  forall self : Array.t T L,
    Slice_length (f self) = End - Start /\
    forall m i,
      elem (T := T) m (CSlice._data (Slice.base (f self))) i =
      elem (T := T) m (Array._data self) (Start + i).
Proof.
  intros HL HS Hf self. rewrite Array_slice_eq in Hf.
  destruct ((Start <=? L) && (End <=? L) && (Start <=? End)) eqn:E;
    [|discriminate].
  injection Hf as <-. bool_to_Z. split.
  - unfold Slice_length, CSlice.size. apply size_sub_small.
    + unfold is_size_t in *. lia.
    + lia.
  - intros m i. unfold elem. simpl. now rewrite ptr_add_add.
Qed.

End SubViews.

(** C2.  The code at [CSlice<unsigned char, 4>::cslice<4, 4>()]: the bounds
    [0 <= 4 <= 4 <= 4] hold and [SLICE_METH_ASSERTS] passes, yet the
    instantiation is rejected, because [cdata<4>()] asserts [4 < 4]; the
    same holds for the [cslice] that [Slice] inherits.  [Slice::slice],
    [Array::cslice] and [Array::slice] compile at these bounds. *)
Theorem cslice_rejects_empty_suffix {P : Platform} :
  SLICE_METH_ASSERTS 4 4 4 = Some tt /\
  CSlice.cslice (T := byte) (L := 4) 4 4 = None /\
  Slice.cslice (T := byte) (L := 4) 4 4 = None /\
  instantiates (Slice.slice (T := byte) (L := 4) 4 4) /\
  instantiates (Array.cslice (T := byte) (L := 4) 4 4) /\
  instantiates (Array.slice (T := byte) (L := 4) 4 4).
Proof.
  unfold instantiates.
  rewrite CSlice_cslice_eq, Slice_cslice_eq, Slice_slice_eq,
    Array_cslice_eq, Array_slice_eq.
  cbn. repeat split; eauto.
Qed.

(** ** Bulk copy: [assign] *)

Section Assign.
Context {P : Platform} {T : Type} {CT : CType T}.

(** The memory after [memcpy] of [L2] elements has the copied prefix. *)
Lemma store_load_copies_prefix (L2 : Z) (dst src : ptr) (m : mem) :
  0 < sizeof T -> 0 <= L2 ->
  copies_prefix (T := T) L2 dst src m
    (store_bytes m dst (load_bytes m src (Z.to_nat (L2 * sizeof T)))).
Proof.
  intros Hs HL2. split; intros i Hi; unfold elem; f_equal;
    apply load_bytes_ext; intros k Hk; rewrite store_load_bytes_at;
    unfold ptr_add; rewrite Z2Nat.id in * by nia.
  - replace ((dst <=? dst + i * sizeof T + k) &&
             (dst + i * sizeof T + k <? dst + L2 * sizeof T)) with true.
    + f_equal. lia.
    + symmetry. apply andb_true_iff.
      split; [apply Z.leb_le | apply Z.ltb_lt]; nia.
  - replace (dst + i * sizeof T + k <? dst + L2 * sizeof T) with false.
    + now rewrite andb_false_r.
    + symmetry. apply Z.ltb_ge. nia.
Qed.

(** The compiled [Slice::assign] is the [memcpy] of the source's bytes. *)
Lemma Slice_assign_run (L L2 : Z) f :
  Slice.assign (T := T) (L := L) L2 = Some f ->
  0 < L2 <= L /\
  forall (self : Slice.t T L) (data : CSlice.t T L2) (m : mem),
    f self data m =
    if overlap (CSlice._data (Slice.base self)) (CSlice._data data)
         (CSlice.sizeBytes T L2)
    then None
    else Some (tt, store_bytes m (CSlice._data (Slice.base self))
                     (load_bytes m (CSlice._data data)
                        (Z.to_nat (CSlice.sizeBytes T L2)))).
Proof.
  rewrite Slice_assign_eq.
  destruct ((L2 <=? L) && (0 <? L) && (0 <? L2)) eqn:E; [|discriminate].
  intros Hf. injection Hf as <-. bool_to_Z. split; [lia|].
  intros self data m. unfold bind, memcpy, ret. rewrite !ptr_add_0.
  destruct (overlap _ _ _); reflexivity.
Qed.

Lemma Slice_assign_compiles (L L2 : Z) :
  instantiates (Slice.assign (T := T) (L := L) L2) <-> 0 < L2 <= L.
Proof.
  unfold instantiates. rewrite Slice_assign_eq.
  destruct ((L2 <=? L) && (0 <? L) && (0 <? L2)) eqn:E; bool_to_Z;
    split; intros Hc; eauto; try lia; destruct Hc; discriminate.
Qed.

(** [Array::assign] is [Slice::assign] on the slice of the whole array. *)
Lemma Array_assign_run (L L2 : Z) f :
  is_size_t L ->
  Array.assign (T := T) (L := L) L2 = Some f ->
  0 < L2 <= L /\
  forall (self : Array.t T L) (data : CSlice.t T L2) (m : mem),
    f self data m =
    if overlap (Array._data self) (CSlice._data data) (CSlice.sizeBytes T L2)
    then None
    else Some (tt, store_bytes m (Array._data self)
                     (load_bytes m (CSlice._data data)
                        (Z.to_nat (CSlice.sizeBytes T L2)))).
Proof.
  intros HL. unfold Array.assign, static_assert.
  rewrite Array_slice_eq.
  destruct (L2 <=? L) eqn:E1; [|discriminate]. cbn [inst_bind].
  destruct ((0 <=? L) && (L <=? L) && (0 <=? L)) eqn:E2; [|discriminate].
  cbn [inst_bind].
  destruct (Slice.assign L2) as [g|] eqn:Eg; [|discriminate].
  cbn [inst_bind]. intros Hf. injection Hf as <-.
  apply Slice_assign_run in Eg. destruct Eg as [Hb Hrun].
  rewrite size_sub_small in Hb by (unfold is_size_t in *; lia).
  split; [lia|]. intros self data m. rewrite Hrun. cbn.
  now rewrite ptr_add_0.
Qed.

Lemma Array_assign_compiles (L L2 : Z) :
  is_size_t L ->
  instantiates (Array.assign (T := T) (L := L) L2) <-> 0 < L2 <= L.
Proof.
  intros HL. split.
  - intros [f Hf]. now apply Array_assign_run in Hf.
  - intros Hb. unfold instantiates, Array.assign, static_assert.
    rewrite Array_slice_eq, Slice_assign_eq.
    rewrite size_sub_small by (unfold is_size_t in *; lia).
    replace (L2 <=? L) with true by (symmetry; apply Z.leb_le; lia).
    replace (0 <=? L) with true by (symmetry; apply Z.leb_le; lia).
    replace (L <=? L) with true by (symmetry; apply Z.leb_le; lia).
    replace (0 <? L - 0) with true by (symmetry; apply Z.ltb_lt; lia).
    replace (L2 <=? L - 0) with true by (symmetry; apply Z.leb_le; lia).
    replace (0 <? L2) with true by (symmetry; apply Z.ltb_lt; lia).
    cbn. eauto.
Qed.

End Assign.

(** C1 (amended).  For a destination [Slice] or [Array] of length [L] and a
    source [CSlice] of length [L2] whose [L2] elements do not overlap the
    first [L2] elements of the destination, [assign(source)] copies exactly
    the source's [L2] elements into indices [0 .. L2-1] of the destination,
    and every destination element at an index [>= L2] keeps its value.  The
    call compiles for every [0 < L2 <= L]. *)
Theorem assign_copies_disjoint_source
  {P : Platform} {T : Type} {CT : CType T} (L L2 : Z)
  (dest : Slice.t T L) (array : Array.t T L) (source : CSlice.t T L2)
  (m : mem) :
  CTypeOk T -> is_size_t L -> object_size_ok T L2 ->
  (0 < L2 <= L -> instantiates (Slice.assign (T := T) (L := L) L2)) /\
  (0 < L2 <= L -> instantiates (Array.assign (T := T) (L := L) L2)) /\
  (overlap (CSlice._data (Slice.base dest)) (CSlice._data source)
     (L2 * sizeof T) = false ->
   Slice_assign_copies dest source m) /\
  (overlap (Array._data array) (CSlice._data source)
     (L2 * sizeof T) = false ->
   Array_assign_copies array source m).
Proof.
  intros HT HL Hsz.
  pose proof (sizeof_pos (T := T)) as Hs.
  assert (Hbytes : CSlice.sizeBytes T L2 = L2 * sizeof T)
    by (apply size_mul_small; exact Hsz).
  split; [apply Slice_assign_compiles|].
  split; [apply (Array_assign_compiles L L2 HL)|].
  split; intros Hdisj f Hf.
  - apply Slice_assign_run in Hf. destruct Hf as [Hb Hrun].
    rewrite Hrun, Hbytes, Hdisj. eexists. split; [reflexivity|].
    apply store_load_copies_prefix; lia.
  - apply Array_assign_run in Hf; [|exact HL]. destruct Hf as [Hb Hrun].
    rewrite Hrun, Hbytes, Hdisj. eexists. split; [reflexivity|].
    apply store_load_copies_prefix; lia.
Qed.

(** The theorem at a 4-byte destination at address 10 and a 2-byte source
    at address 20. *)
Lemma assign_copies_disjoint_source_witness :
  Slice_assign_copies (P := target32) (T := byte) (L := 4) (L2 := 2)
    (Slice.make 10) (CSlice.mk 20) mem_of_addresses /\
  Array_assign_copies (P := target32) (T := byte) (L := 4) (L2 := 2)
    (Array.mk 10) (CSlice.mk 20) mem_of_addresses.
Proof.
  pose proof (assign_copies_disjoint_source (P := target32) (T := byte) 4 2
                (Slice.make 10) (Array.mk 10) (CSlice.mk 20)
                mem_of_addresses) as H.
  assert (H1 : is_size_t (P := target32) 4)
    by (unfold is_size_t, SIZE_MAX; simpl; lia).
  assert (H2 : object_size_ok (P := target32) byte 2)
    by (unfold object_size_ok, is_size_t, SIZE_MAX; simpl; lia).
  destruct (H uchar_ok H1 H2) as (_ & _ & Hs & Ha).
  split; [apply Hs | apply Ha]; reflexivity.
Defined.

(** C1 as stated fails when the source overlaps the destination: for a
    3-byte [Slice] at address 101 and a 2-byte [CSlice] at address 100 (two
    views of one array, as [slice<1,4>()] and [cslice<0,2>()] give them),
    [dest.assign(source)] compiles ([L2 = 2 <= L = 3]) and calls
    [memcpy(101, 100, 2)] on overlapping regions, which is undefined. *)
Lemma assign_overlapping_source_undefined :
  ~ Slice_assign_copies (P := target32) (T := byte) (L := 3) (L2 := 2)
      (Slice.make 101) (CSlice.mk 100) mem_of_addresses.
Proof.
  intros H. destruct (H _ eq_refl) as (m' & Hrun & _).
  vm_compute in Hrun. discriminate.
Qed.

(** On that input a forward byte copy leaves 100, 100 in the first two
    elements of the destination, where the source held 100, 101. *)
Remark forward_copy_of_overlapping_source :
  map byte.unsigned (load_bytes mem_of_addresses 100 2) = [100; 101] /\
  map byte.unsigned
    (load_bytes (copy_bytes_forward 2 101 100 mem_of_addresses) 101 2)
  = [100; 100].
Proof. split; reflexivity. Qed.

(** A destination of length 4 that holds 0, 0, 0, 0 and the source 9, 9:
    the result is 9, 9, 0, 0. *)
Example assign_example :
  exists f m',
    Slice.assign (P := target32) (T := byte) (L := 4) 2 = Some f /\
    f (Slice.make 10) (CSlice.mk 20) mem_zeros_and_nines = Some (tt, m') /\
    map byte.unsigned (load_bytes mem_zeros_and_nines 10 4) = [0; 0; 0; 0] /\
    map byte.unsigned (load_bytes m' 10 4) = [9; 9; 0; 0].
Proof. do 2 eexists. repeat split. Qed.

(** ** [fill] *)

Section Fill.
Context {P : Platform} {T : Type} {CT : CType T} {OK : CTypeOk T}.

(** The object stored at [p] is read back from any memory that agrees with
    the one after the store on the bytes of the object. *)
Lemma load_after_store (m m' : mem) (p : ptr) (v : T) :
  (forall a, p <= a < p + sizeof T ->
     m' a = store_bytes m p (encode v) a) ->
  decode (load_bytes m' p (Z.to_nat (sizeof T))) = v.
Proof.
  intros H.
  rewrite <- (decode_encode v) at 1. f_equal.
  rewrite <- (load_store_bytes m p (encode v)).
  rewrite <- (encode_length v), Nat2Z.id.
  apply load_bytes_ext. intros k Hk. apply H.
  rewrite <- (encode_length v). lia.
Qed.

(** The loop of [fill] from index [i]: it ends, the elements [i .. L-1] hold
    [val], and no byte outside them changes. *)
Lemma fill_loop (L : Z) (base : ptr) (val : T) :
  is_size_t L ->
  forall (n : nat) (i : Z) (m : mem),
    0 <= i -> Z.of_nat n = L - i ->
    exists m',
      for_loop n i L (fun i => store (ptr_add (T := T) base i) val) m
      = Some (tt, m') /\
      (forall j, i <= j < L -> elem (T := T) m' base j = val) /\
      (forall a, a < base + i * sizeof T \/ base + L * sizeof T <= a ->
         m' a = m a).
Proof.
  intros HL. pose proof (sizeof_pos (T := T)) as Hs.
  induction n as [|n IH]; intros i m Hi Hn.
  - exists m. cbn. split; [reflexivity|]. split; intros; [lia | reflexivity].
  - cbn [for_loop].
    replace (i <? L) with true by (symmetry; apply Z.ltb_lt; lia).
    unfold bind at 1. unfold store at 1.
    rewrite size_add_small by (unfold is_size_t in *; lia).
    set (m1 := store_bytes m (ptr_add (T := T) base i) (encode val)).
    destruct (IH (i + 1) m1) as (m' & Hrun & Hset & Hframe); [lia | lia |].
    exists m'. split; [exact Hrun|]. split.
    + intros j Hj. destruct (Z.eq_dec j i) as [->|Hne].
      * unfold elem. apply load_after_store with (m := m).
        intros a Ha. unfold ptr_add in Ha. fold m1.
        apply Hframe. nia.
      * apply Hset. lia.
    + intros a Ha. rewrite Hframe by nia. unfold m1.
      apply store_bytes_outside. rewrite encode_length.
      unfold ptr_add. nia.
Qed.

Lemma Slice_fill_run (L : Z) f :
  Slice.fill (T := T) (L := L) = Some f ->
  0 < L /\
  forall (self : Slice.t T L) (val : T),
    f self val =
    for_ 0 L (fun i =>
      store (ptr_add (T := T) (CSlice._data (Slice.base self)) i) val).
Proof.
  rewrite Slice_fill_eq. destruct (0 <? L) eqn:E; [|discriminate].
  intros Hf. injection Hf as <-. bool_to_Z. split; [lia|].
  intros self val. now rewrite ptr_add_0.
Qed.

Lemma Slice_fill_compiles (L : Z) :
  instantiates (Slice.fill (T := T) (L := L)) <-> 0 < L.
Proof.
  unfold instantiates. rewrite Slice_fill_eq.
  destruct (0 <? L) eqn:E; bool_to_Z; split; intros Hc; eauto; try lia;
    destruct Hc; discriminate.
Qed.

Lemma Array_fill_compiles (L : Z) :
  is_size_t L ->
  instantiates (Array.fill (T := T) (L := L)) <-> 0 < L.
Proof.
  intros HL. unfold instantiates, Array.fill.
  rewrite Array_slice_eq, Slice_fill_eq.
  rewrite size_sub_small by (unfold is_size_t in *; lia).
  replace (0 <=? L) with true by (symmetry; apply Z.leb_le; apply HL).
  replace (L <=? L) with true by (symmetry; apply Z.leb_le; lia).
  rewrite Z.sub_0_r.
  destruct (0 <? L) eqn:E; bool_to_Z; cbn; split; intros Hc; eauto;
    try lia; destruct Hc; discriminate.
Qed.

(** C9.  For every [Slice] or [Array] of length [L] and every value [v],
    [fill(v)] sets all [L] elements to [v]: after the call every index
    [0 .. L-1] holds [v].  The call compiles for every [L > 0]. *)
Theorem fill_sets_every_element (L : Z)
  (dest : Slice.t T L) (array : Array.t T L) (v : T) (m : mem) :
  is_size_t L ->
  (0 < L -> instantiates (Slice.fill (T := T) (L := L))) /\
  (0 < L -> instantiates (Array.fill (T := T) (L := L))) /\
  Slice_fill_sets dest v m /\
  Array_fill_sets array v m.
Proof.
  intros HL.
  split; [apply Slice_fill_compiles|].
  split; [apply (Array_fill_compiles L HL)|].
  split; intros f Hf.
  - apply Slice_fill_run in Hf. destruct Hf as [Hpos Hrun].
    rewrite Hrun. unfold for_.
    destruct (fill_loop L (CSlice._data (Slice.base dest)) v HL
                (Z.to_nat (L - 0)) 0 m) as (m' & Hm' & Hset & _);
      [lia | lia |].
    exists m'. split; [exact Hm' | exact Hset].
  - unfold Array.fill in Hf. rewrite Array_slice_eq in Hf.
    destruct ((0 <=? L) && (L <=? L) && (0 <=? L)); [|discriminate].
    cbn [inst_bind] in Hf.
    destruct Slice.fill as [g|] eqn:Eg; [|discriminate].
    cbn [inst_bind] in Hf. injection Hf as <-.
    apply Slice_fill_run in Eg. destruct Eg as [Hpos Hrun].
    assert (HL0 : size_sub L 0 = L)
      by (rewrite size_sub_small; unfold is_size_t in *; lia).
    rewrite Hrun. unfold for_. cbn [Slice.base Slice.make CSlice._data].
    rewrite ptr_add_0.
    destruct (fill_loop (size_sub L 0) (Array._data array) v
                ltac:(rewrite HL0; exact HL)
                (Z.to_nat (size_sub L 0 - 0)) 0 m)
      as (m' & Hm' & Hset & _); [lia | lia |].
    exists m'. split; [exact Hm'|].
    intros i Hi. apply Hset. lia.
Qed.

End Fill.

(** The theorem at a 3-byte slice and a 3-byte array at address 10, filled
    with 7. *)
Lemma fill_sets_every_element_witness :
  Slice_fill_sets (P := target32) (T := byte) (L := 3)
    (Slice.make 10) (byte.of_Z 7) mem_of_addresses /\
  Array_fill_sets (P := target32) (T := byte) (L := 3)
    (Array.mk 10) (byte.of_Z 7) mem_of_addresses.
Proof.
  assert (H3 : is_size_t (P := target32) 3)
    by (unfold is_size_t, SIZE_MAX; simpl; lia).
  destruct (fill_sets_every_element (P := target32) (T := byte) 3
              (Slice.make 10) (Array.mk 10) (byte.of_Z 7) mem_of_addresses H3)
    as (_ & _ & Hs & Ha).
  split; assumption.
Defined.

(** A buffer of length 3 after [fill(7)] holds 7, 7, 7. *)
Example fill_example :
  exists f m',
    Array.fill (P := target32) (T := byte) (L := 3) = Some f /\
    f (Array.mk 10) (byte.of_Z 7) mem_of_addresses = Some (tt, m') /\
    map byte.unsigned (load_bytes m' 10 3) = [7; 7; 7].
Proof. do 2 eexists. repeat split. Qed.

(** ** The cursor-write combinator: [operator<<] *)

Section Write.
Context {P : Platform} {T : Type} {CT : CType T}.

(** The compiled [operator<<] on a slice: the [memcpy] of [assign], then the
    slice from [L2]. *)
Lemma operator_shl_run (L1 L2 : Z) f :
  operator_shl (T := T) (L1 := L1) (L2 := L2) = Some f ->
  0 < L2 <= L1 /\
  forall (dest : Slice.t T L1) (data : CSlice.t T L2) (m : mem),
    f dest data m =
    if overlap (CSlice._data (Slice.base dest)) (CSlice._data data)
         (CSlice.sizeBytes T L2)
    then None
    else Some (Slice.make (ptr_add (T := T) (CSlice._data (Slice.base dest)) L2),
               store_bytes m (CSlice._data (Slice.base dest))
                 (load_bytes m (CSlice._data data)
                    (Z.to_nat (CSlice.sizeBytes T L2)))).
Proof.
  unfold operator_shl.
  destruct (Slice.assign L2) as [a|] eqn:Ea; [|discriminate].
  cbn [inst_bind]. rewrite Slice_slice_eq.
  destruct ((L2 <=? L1) && (L1 <=? L1) && (L2 <=? L1) && (0 <? L1));
    [|discriminate].
  cbn [inst_bind]. intros Hf. injection Hf as <-.
  apply Slice_assign_run in Ea. destruct Ea as [Hb Hrun].
  split; [exact Hb|]. intros dest data m.
  unfold bind. rewrite Hrun.
  destruct (overlap _ _ _); [reflexivity|].
  unfold ret. now rewrite ptr_add_0.
Qed.

Lemma operator_shl_compiles (L1 L2 : Z) :
  instantiates (operator_shl (T := T) (L1 := L1) (L2 := L2)) <->
  0 < L2 <= L1.
Proof.
  split.
  - intros [f Hf]. now apply operator_shl_run in Hf.
  - intros Hb. unfold instantiates, operator_shl.
    rewrite Slice_assign_eq, Slice_slice_eq.
    replace (L2 <=? L1) with true by (symmetry; apply Z.leb_le; lia).
    replace (L1 <=? L1) with true by (symmetry; apply Z.leb_le; lia).
    replace (0 <? L1) with true by (symmetry; apply Z.ltb_lt; lia).
    replace (0 <? L2) with true by (symmetry; apply Z.ltb_lt; lia).
    cbn. eauto.
Qed.

(** The compiled [operator<<] on an array. *)
Lemma operator_shl_Array_run (L1 L2 : Z) f :
  is_size_t L1 ->
  operator_shl_Array (T := T) (L1 := L1) (L2 := L2) = Some f ->
  0 < L2 <= L1 /\
  forall (dest : Array.t T L1) (data : CSlice.t T L2) (m : mem),
    f dest data m =
    if overlap (Array._data dest) (CSlice._data data) (CSlice.sizeBytes T L2)
    then None
    else Some (Slice.make (ptr_add (T := T) (Array._data dest) L2),
               store_bytes m (Array._data dest)
                 (load_bytes m (CSlice._data data)
                    (Z.to_nat (CSlice.sizeBytes T L2)))).
Proof.
  intros HL. unfold operator_shl_Array. rewrite Array_slice_eq.
  destruct ((0 <=? L1) && (L1 <=? L1) && (0 <=? L1)); [|discriminate].
  cbn [inst_bind].
  destruct operator_shl as [g|] eqn:Eg; [|discriminate].
  cbn [inst_bind]. intros Hf. injection Hf as <-.
  apply operator_shl_run in Eg. destruct Eg as [Hb Hrun].
  rewrite size_sub_small in Hb by (unfold is_size_t in *; lia).
  split; [lia|]. intros dest data m. rewrite Hrun.
  cbn [Slice.base Slice.make CSlice._data]. now rewrite ptr_add_0.
Qed.

Lemma operator_shl_Array_compiles (L1 L2 : Z) :
  is_size_t L1 ->
  instantiates (operator_shl_Array (T := T) (L1 := L1) (L2 := L2)) <->
  0 < L2 <= L1.
Proof.
  intros HL. split.
  - intros [f Hf]. now apply operator_shl_Array_run in Hf.
  - intros Hb. unfold instantiates, operator_shl_Array.
    rewrite Array_slice_eq.
    replace (0 <=? L1) with true by (symmetry; apply Z.leb_le; lia).
    replace (L1 <=? L1) with true by (symmetry; apply Z.leb_le; lia).
    cbn [andb inst_bind].
    destruct (proj2 (operator_shl_compiles (size_sub L1 0) L2)) as [g Hg].
    + rewrite size_sub_small by (unfold is_size_t in *; lia). lia.
    + rewrite Hg. cbn. eauto.
Qed.

End Write.

(** C3 (amended).  For a destination [Slice] or [Array] of length [L1] and a
    source [CSlice] of length [L2] whose [L2] elements do not overlap the
    first [L2] elements of the destination, [dest << source] copies the
    source into the first [L2] elements of the destination and returns a
    view of length [L1 - L2] whose data pointer is the destination's data
    pointer advanced by [L2] elements.  The call compiles for every
    [0 < L2 <= L1]. *)
Theorem write_returns_unwritten_suffix
  {P : Platform} {T : Type} {CT : CType T} (L1 L2 : Z)
  (dest : Slice.t T L1) (array : Array.t T L1) (source : CSlice.t T L2)
  (m : mem) :
  CTypeOk T -> is_size_t L1 -> object_size_ok T L2 ->
  (0 < L2 <= L1 ->
   instantiates (operator_shl (T := T) (L1 := L1) (L2 := L2))) /\
  (0 < L2 <= L1 ->
   instantiates (operator_shl_Array (T := T) (L1 := L1) (L2 := L2))) /\
  (overlap (CSlice._data (Slice.base dest)) (CSlice._data source)
     (L2 * sizeof T) = false ->
   Slice_write_advances dest source m) /\
  (overlap (Array._data array) (CSlice._data source)
     (L2 * sizeof T) = false ->
   Array_write_advances array source m).
Proof.
  intros HT HL Hsz.
  pose proof (sizeof_pos (T := T)) as Hs.
  assert (Hbytes : CSlice.sizeBytes T L2 = L2 * sizeof T)
    by (apply size_mul_small; exact Hsz).
  split; [apply operator_shl_compiles|].
  split; [apply (operator_shl_Array_compiles L1 L2 HL)|].
  split; intros Hdisj f Hf.
  - apply operator_shl_run in Hf. destruct Hf as [Hb Hrun].
    rewrite Hrun, Hbytes, Hdisj. do 2 eexists.
    split; [reflexivity|].
    split; [apply store_load_copies_prefix; lia|].
    split; [|reflexivity].
    unfold Slice_length, CSlice.size. apply size_sub_small; [exact HL | lia].
  - apply operator_shl_Array_run in Hf; [|exact HL].
    destruct Hf as [Hb Hrun].
    rewrite Hrun, Hbytes, Hdisj. do 2 eexists.
    split; [reflexivity|].
    split; [apply store_load_copies_prefix; lia|].
    split; [|reflexivity].
    unfold Slice_length, CSlice.size.
    rewrite (size_sub_small L1 0) by (unfold is_size_t in *; lia).
    rewrite Z.sub_0_r. apply size_sub_small; [exact HL | lia].
Qed.

(** The theorem at a 10-byte destination at address 10 and a 3-byte source
    at address 30: the rest has 7 bytes and starts at address 13. *)
Lemma write_returns_unwritten_suffix_witness :
  Slice_write_advances (P := target32) (T := byte) (L1 := 10) (L2 := 3)
    (Slice.make 10) (CSlice.mk 30) mem_of_addresses /\
  Array_write_advances (P := target32) (T := byte) (L1 := 10) (L2 := 3)
    (Array.mk 10) (CSlice.mk 30) mem_of_addresses.
Proof.
  pose proof (write_returns_unwritten_suffix (P := target32) (T := byte) 10 3
                (Slice.make 10) (Array.mk 10) (CSlice.mk 30)
                mem_of_addresses) as H.
  assert (H1 : is_size_t (P := target32) 10)
    by (unfold is_size_t, SIZE_MAX; simpl; lia).
  assert (H2 : object_size_ok (P := target32) byte 3)
    by (unfold object_size_ok, is_size_t, SIZE_MAX; simpl; lia).
  destruct (H uchar_ok H1 H2) as (_ & _ & Hs & Ha).
  split; [apply Hs | apply Ha]; reflexivity.
Defined.

(** C3 as stated fails when the source overlaps the destination: a
    3-byte [Slice] at address 101 and a 2-byte [CSlice] at address 100
    (two views of one array); [dest << source] compiles and calls
    [memcpy(101, 100, 2)] on overlapping regions, which is undefined. *)
Lemma write_overlapping_source_undefined :
  ~ Slice_write_advances (P := target32) (T := byte) (L1 := 3) (L2 := 2)
      (Slice.make 101) (CSlice.mk 100) mem_of_addresses.
Proof.
  intros H. destruct (H _ eq_refl) as (rest & m' & Hrun & _).
  vm_compute in Hrun. discriminate.
Qed.

(** A destination of length 10 and a source of length 3: the rest has
    length 7 and its first byte is the destination's byte at index 3. *)
Example write_example :
  exists f rest m',
    operator_shl (P := target32) (T := byte) (L1 := 10) (L2 := 3) = Some f /\
    f (Slice.make 10) (CSlice.mk 30) mem_of_addresses = Some (rest, m') /\
    Slice_length rest = 7 /\
    CSlice._data (Slice.base rest) = CSlice.operator_index
                                       (T := byte) (L := 10) (CSlice.mk 10) 3.
Proof. do 3 eexists. repeat split. Qed.

(** ** Erasure to a run-time view: [operator&] *)

(** C10.  For every [CSlice], [Slice] or [Array] of length [L] (null or
    not), [operator&] yields a [CArrayPtr] whose [size()] is [L] and whose
    [data()] is the base data pointer; run in a memory [m] it leaves [m] as
    it is, and the erased view sees the same elements. *)
Theorem erasure_keeps_pointer_and_length
  {T : Type} {CT : CType T} (L : Z)
  (s : CSlice.t T L) (d : Slice.t T L) (a : Array.t T L) (m : mem) :
  (CArrayPtr.size (CSlice.operator_addr s) = L /\
   CArrayPtr.data (CSlice.operator_addr s) = CSlice._data s /\
   ret (CSlice.operator_addr s) m
   = Some (CArrayPtr.mk (CSlice._data s) L, m)) /\
  (CArrayPtr.size (Slice.operator_addr d) = L /\
   CArrayPtr.data (Slice.operator_addr d) = CSlice._data (Slice.base d) /\
   ret (Slice.operator_addr d) m
   = Some (CArrayPtr.mk (CSlice._data (Slice.base d)) L, m)) /\
  (CArrayPtr.size (Array.operator_addr a) = L /\
   CArrayPtr.data (Array.operator_addr a) = Array._data a /\
   ret (Array.operator_addr a) m
   = Some (CArrayPtr.mk (Array._data a) L, m)) /\
  (forall i,
     elem (T := T) m (CArrayPtr.data (CSlice.operator_addr s)) i =
     elem (T := T) m (CSlice.operator_index s i) 0 /\
     elem (T := T) m (CArrayPtr.data (Array.operator_addr a)) i =
     elem (T := T) m (Array.operator_index a i) 0).
Proof.
  unfold CArrayPtr.size, CArrayPtr.data, Slice.operator_addr,
    CSlice.operator_addr, Array.operator_addr, ret. cbn.
  repeat split; unfold elem, CSlice.operator_index, Array.operator_index;
    now rewrite ptr_add_0.
Qed.

(** ** Reinterpretation: [cast] *)

Section Cast.
Context {P : Platform} (T : Type) {CT : CType T}.

Lemma cast_eq (L : Z) :
  cast T (L := L) =
  if (sizeof T <=? L * 1) && (0 <? L)
  then Some (fun array => ptr_add (T := byte) (Array._data array) 0)
  else None.
Proof.
  unfold cast, static_assert, Array.sizeof_. rewrite Array_cdata_eq.
  cbn [sizeof uchar].
  destruct (sizeof T <=? L * 1), (0 <? L); reflexivity.
Qed.

Lemma cast_mut_eq (L : Z) :
  cast_mut T (L := L) =
  if (sizeof T <=? L * 1) && (0 <? L)
  then Some (fun array => ptr_add (T := byte) (Array._data array) 0)
  else None.
Proof.
  unfold cast_mut. rewrite cast_eq.
  destruct ((sizeof T <=? L * 1) && (0 <? L)); reflexivity.
Qed.

(** C5.  For a [ByteArray<L>] and a target type [T] (an object type, so
    [sizeof(T) >= 1]), both overloads of [cast<T>] compile exactly when
    [sizeof(T) <= L]; the compiled call returns the base data pointer of the
    array, and run in a memory [m] it leaves [m] as it is. *)
Theorem cast_checked_zero_copy (L : Z) (array : Array.t byte L) (m : mem) :
  0 < sizeof T ->
  (instantiates (cast T (L := L)) <-> sizeof T <= L) /\
  (instantiates (cast_mut T (L := L)) <-> sizeof T <= L) /\
  (forall f, cast T = Some f ->
     ret (f array) m = Some (Array._data array, m)) /\
  (forall f, cast_mut T = Some f ->
     ret (f array) m = Some (Array._data array, m)).
Proof.
  intros Hpos. unfold instantiates. rewrite cast_eq, cast_mut_eq.
  destruct ((sizeof T <=? L * 1) && (0 <? L)) eqn:E; bool_to_Z.
  - repeat split; intros; try lia; eauto;
      match goal with H : Some _ = Some _ |- _ => injection H as <- end;
      unfold ret; now rewrite ptr_add_0.
  - repeat split; intros Hc; try discriminate; try lia;
      destruct Hc; discriminate.
  - repeat split; intros Hc; try discriminate; try lia;
      destruct Hc; discriminate.
Qed.

End Cast.

(** The theorem at a 37-byte array at address 100 and the 37-byte message
    type. *)
Lemma cast_checked_zero_copy_witness :
  instantiates (cast (P := target32) Msg (L := 37)) /\
  forall f, cast (P := target32) Msg (L := 37) = Some f ->
    ret (f (Array.mk 100)) mem_of_addresses = Some (100, mem_of_addresses).
Proof.
  assert (Hpos : 0 < sizeof Msg) by reflexivity.
  destruct (cast_checked_zero_copy (P := target32) Msg 37 (Array.mk 100)
              mem_of_addresses Hpos) as (Hc & _ & Hp & _).
  split; [apply Hc; simpl; lia | exact Hp].
Defined.

(** ** Elementwise scalar XOR: [operator^=] *)

Section Xor.
Context {P : Platform} {T : Type} {CT : CType T} {OK : CTypeOk T}.
Context {X : XorByte T}.

(** An element is the same in two memories that agree on its bytes. *)
Lemma elem_ext (m m' : mem) (base : ptr) (j : Z) :
  (forall a, base + j * sizeof T <= a < base + (j + 1) * sizeof T ->
     m' a = m a) ->
  elem (T := T) m' base j = elem (T := T) m base j.
Proof.
  intros H. pose proof (sizeof_pos (T := T)) as Hs.
  unfold elem. f_equal. apply load_bytes_ext.
  intros k Hk. apply H. unfold ptr_add. rewrite Z2Nat.id in Hk by lia. lia.
Qed.

(** The loop of [operator^=] from index [i]: it ends, each of the elements
    [i .. L-1] is XORed with [v] once, and no byte outside them changes. *)
Lemma xor_loop (L : Z) (base : ptr) (v : byte) :
  is_size_t L ->
  forall (n : nat) (i : Z) (m : mem),
    0 <= i -> n = Z.to_nat (L - i) ->
    exists m',
      for_loop n i L
        (fun i => x <- load (T := T) (ptr_add (T := T) base i) ;;
                  store (ptr_add (T := T) base i) (xor_byte x v)) m
      = Some (tt, m') /\
      (forall j, i <= j < L ->
         elem (T := T) m' base j = xor_byte (elem (T := T) m base j) v) /\
      (forall a, a < base + i * sizeof T \/ base + L * sizeof T <= a ->
         m' a = m a).
Proof.
  intros HL. pose proof (sizeof_pos (T := T)) as Hs.
  induction n as [|n IH]; intros i m Hi Hn.
  - exists m. cbn. split; [reflexivity|].
    split; intros; [lia | reflexivity].
  - cbn [for_loop].
    replace (i <? L) with true by (symmetry; apply Z.ltb_lt; lia).
    unfold bind at 1. unfold bind at 1. unfold load at 1. unfold store at 1.
    rewrite size_add_small by (unfold is_size_t in *; lia).
    fold (elem (T := T) m base i).
    set (m1 := store_bytes m (ptr_add (T := T) base i)
                 (encode (xor_byte (elem (T := T) m base i) v))).
    destruct (IH (i + 1) m1) as (m' & Hrun & Hset & Hframe); [lia | lia |].
    assert (Hm1 : forall a,
               a < base + i * sizeof T \/ base + (i + 1) * sizeof T <= a ->
               m1 a = m a).
    { intros a Ha. unfold m1. apply store_bytes_outside.
      rewrite encode_length. unfold ptr_add. lia. }
    exists m'. split; [exact Hrun|]. split.
    + intros j Hj. destruct (Z.eq_dec j i) as [->|Hne].
      * unfold elem at 1. apply load_after_store with (m := m).
        intros a Ha. unfold ptr_add in Ha. fold m1.
        apply Hframe. nia.
      * rewrite Hset by lia. f_equal. apply elem_ext.
        intros a Ha. apply Hm1. nia.
    + intros a Ha. rewrite Hframe by nia. apply Hm1. nia.
Qed.


End Xor.

(** C4.  The code on a one-byte array at address 100 that holds 100, XORed
    twice with 1: the counter is not initialised, and when it starts at 0
    in the first call and at 1 in the second, the element is XORed once
    only and ends as 101.  The claim wants it back at 100. *)
Theorem xor_assign_uninitialised_counter {P : Platform} :
  exists m1 m2,
    operator_xor_assign (T := byte) (L := 1) 0 (Array.mk 100) (byte.of_Z 1)
      mem_of_addresses = Some (Array.mk 100, m1) /\
    operator_xor_assign (T := byte) (L := 1) 1 (Array.mk 100) (byte.of_Z 1)
      m1 = Some (Array.mk 100, m2) /\
    elem (T := byte) mem_of_addresses 100 0 = byte.of_Z 100 /\
    elem (T := byte) m2 100 0 = byte.of_Z 101.
Proof.
  do 2 eexists. split; [reflexivity|]. split; [reflexivity|].
  split; reflexivity.
Qed.

(** ** The parsing scenario *)

Lemma firstn_seq_prefix (k start len : nat) :
  (k <= len)%nat -> firstn k (seq start len) = seq start k.
Proof.
  revert start len. induction k as [|k IH]; intros start len Hk.
  - reflexivity.
  - destruct len as [|len]; [lia|]. cbn. f_equal. apply IH. lia.
Qed.

(** A part of a load is the load of the part. *)
Lemma load_bytes_slice (m : mem) (p : ptr) (n j k : nat) :
  (j + k <= n)%nat ->
  firstn k (skipn j (load_bytes m p n)) = load_bytes m (p + Z.of_nat j) k.
Proof.
  intros H. unfold load_bytes.
  rewrite skipn_map, firstn_map, skipn_seq, firstn_seq_prefix by lia.
  cbn [Nat.add]. rewrite <- (Nat.add_0_l j) at 1.
  generalize 0%nat as s. induction k as [|k IH]; intros s.
  - reflexivity.
  - cbn. f_equal.
    + f_equal. lia.
    + apply (IH ltac:(lia) (S s)).
Qed.

Lemma overlap_separate (a b : ptr) (n : Z) :
  separate a n b n -> overlap a b n = false.
Proof.
  unfold separate, overlap. intros [H | H].
  - apply andb_false_iff. right. apply Z.ltb_ge. lia.
  - apply andb_false_iff. left. apply andb_false_iff. right.
    apply Z.ltb_ge. lia.
Qed.

Section Scenario.
Context {P : Platform}.

Lemma sizeBytes_uchar (L : Z) :
  0 <= L < 65536 -> CSlice.sizeBytes byte L = L.
Proof.
  intros H. unfold CSlice.sizeBytes. cbn [sizeof uchar].
  rewrite size_mul_small; [lia|]. apply small_is_size_t. lia.
Qed.

(** C6.  A 37-byte [ByteArray] is written by [buf << tag << filler << id]
    from a tag byte 1, 32 filler bytes and 4 id bytes held outside the
    buffer, and then [cast] to the packed message type: the scenario
    compiles and runs, and the message read back has the tag 1, the same
    32 filler bytes and the same 4 id bytes. *)
Theorem parsing_round_trip
  (buf : Array.t byte 37) (tag_ : CSlice.t byte 1)
  (filler : CSlice.t byte 32) (id_ : CSlice.t byte 4) (m : mem) :
  separate (CSlice._data tag_) 1 (Array._data buf) 37 ->
  separate (CSlice._data filler) 32 (Array._data buf) 37 ->
  separate (CSlice._data id_) 4 (Array._data buf) 37 ->
  elem (T := byte) m (CSlice._data tag_) 0 = byte.of_Z 1 ->
  exists f msg m',
    parsing_scenario = Some f /\
    f buf tag_ filler id_ m = Some (msg, m') /\
    msg_tag msg = byte.of_Z 1 /\
    msg_payload msg = load_bytes m (CSlice._data filler) 32 /\
    msg_id msg = load_bytes m (CSlice._data id_) 4.
Proof.
  intros Htag Hfiller Hid Hone.
  destruct buf as [b], tag_ as [tp], filler as [fp], id_ as [ip].
  unfold separate in *. cbn [Array._data CSlice._data] in *.
  unfold elem in Hone. cbn [decode uchar sizeof] in Hone.
  change (Z.to_nat 1) with 1%nat in Hone.
  rewrite nth_load_bytes in Hone by lia.
  assert (H37 : is_size_t 37) by (apply small_is_size_t; lia).
  assert (E0 : size_sub 37 0 = 37) by (rewrite size_sub_small; [lia | assumption | lia]).
  assert (E1 : size_sub (size_sub 37 0) 1 = 36)
    by (rewrite E0, size_sub_small; [lia | assumption | lia]).
  assert (E2 : size_sub (size_sub (size_sub 37 0) 1) 32 = 4)
    by (rewrite E1, size_sub_small; [lia | apply small_is_size_t; lia | lia]).
  (* the four instantiations *)
  destruct (proj2 (operator_shl_Array_compiles (T := byte) 37 1 H37))
    as [w1 Hw1]; [lia|].
  destruct (proj2 (operator_shl_compiles (T := byte)
                     (size_sub (size_sub 37 0) 1) 32))
    as [w2 Hw2]; [lia|].
  destruct (proj2 (operator_shl_compiles (T := byte)
                     (size_sub (size_sub (size_sub 37 0) 1) 32) 4))
    as [w3 Hw3]; [lia|].
  unfold parsing_scenario. rewrite Hw1, Hw2, Hw3, cast_eq.
  cbn [inst_bind sizeof Msg_ctype Z.leb Z.ltb Z.mul Pos.mul Z.compare
       Pos.compare Pos.compare_cont andb].
  apply operator_shl_Array_run in Hw1; [|exact H37].
  apply operator_shl_run in Hw2. apply operator_shl_run in Hw3.
  destruct Hw1 as [_ Hw1], Hw2 as [_ Hw2], Hw3 as [_ Hw3].
  do 3 eexists. split; [reflexivity|].
  unfold bind. rewrite Hw1, sizeBytes_uchar by lia.
  cbn [Array._data CSlice._data].
  rewrite overlap_separate by (unfold separate; lia).
  rewrite Hw2, sizeBytes_uchar by lia.
  unfold ptr_add. cbn [Slice.base Slice.make CSlice._data sizeof uchar].
  rewrite overlap_separate by (unfold separate; lia).
  rewrite Hw3, sizeBytes_uchar by lia.
  cbn [Slice.base Slice.make CSlice._data sizeof uchar].
  rewrite overlap_separate by (unfold separate; lia).
  unfold load. cbn [sizeof Msg_ctype decode].
  split; [reflexivity|]. cbn [msg_tag msg_payload msg_id].
  change (Z.to_nat 37) with 37%nat.
  change (Z.to_nat 32) with 32%nat. change (Z.to_nat 4) with 4%nat.
  change (Z.to_nat 1) with 1%nat.
  rewrite (load_bytes_slice _ _ 37 1 32), (load_bytes_slice _ _ 37 33 4)
    by lia.
  split; [|split].
  - rewrite nth_load_bytes by lia.
    repeat (rewrite store_load_bytes_at;
            match goal with
            | |- context [if ?c then _ else _] =>
                destruct c eqn:?; bool_to_Z; try lia
            end);
      rewrite <- Hone; f_equal; unfold ptr_add; cbn [sizeof uchar]; lia.
  - apply load_bytes_ext. intros k Hk.
    repeat (rewrite store_load_bytes_at;
            match goal with
            | |- context [if ?c then _ else _] =>
                destruct c eqn:?; bool_to_Z; try lia
            end);
      f_equal; lia.
  - apply load_bytes_ext. intros k Hk.
    repeat (rewrite store_load_bytes_at;
            match goal with
            | |- context [if ?c then _ else _] =>
                destruct c eqn:?; bool_to_Z; try lia
            end);
      f_equal; lia.
Qed.

End Scenario.

(** The theorem with the buffer at address 100, the tag byte at address 1
    (which holds 1), the filler at address 200 and the id at address 300. *)
Lemma parsing_round_trip_witness :
  exists f msg m',
    parsing_scenario (P := target32) = Some f /\
    f (Array.mk 100) (CSlice.mk 1) (CSlice.mk 200) (CSlice.mk 300)
      mem_of_addresses = Some (msg, m') /\
    msg_tag msg = byte.of_Z 1 /\
    msg_payload msg = load_bytes mem_of_addresses 200 32 /\
    msg_id msg = load_bytes mem_of_addresses 300 4.
Proof.
  apply (parsing_round_trip (P := target32) (Array.mk 100) (CSlice.mk 1)
           (CSlice.mk 200) (CSlice.mk 300) mem_of_addresses).
  - unfold separate. simpl. lia.
  - unfold separate. simpl. lia.
  - unfold separate. simpl. lia.
  - reflexivity.
Defined.

(** ** Sizes in bytes *)

(** The header's own check of the layout passes. *)
Lemma Array_definition_check_passes : Array_definition_check = Some tt.
Proof. reflexivity. Qed.

(** [sizeBytes()] is [L * sizeof(T)] computed in [size_t]: it is the size of
    the array [T[L]] whenever that is the size of an object, and wraps
    around otherwise. *)
Lemma sizeBytes_exact {P : Platform} (T : Type) {CT : CType T} (L : Z) :
  object_size_ok T L ->
  CSlice.sizeBytes T L = L * sizeof T /\
  CSlice.sizeBytes T L = Array.sizeof_ T L.
Proof.
  intros H. unfold CSlice.sizeBytes, Array.sizeof_.
  rewrite size_mul_small by exact H. split; reflexivity.
Qed.

(** * Further properties of the code *)

(** ** Sub-views: contents, bounds and composition *)

Section SubViewsMore.
Context {P : Platform} {T : Type} {CT : CType T}.

Lemma Slice_cslice_compiles (L Start End : Z) :
  instantiates (Slice.cslice (T := T) (L := L) Start End) <->
  Start <= End <= L /\ Start < L.
Proof.
  unfold instantiates. rewrite Slice_cslice_eq.
  destruct ((Start <=? L) && (End <=? L) && (Start <=? End) && (Start <? L))
    eqn:E; bool_to_Z; split; intros Hc; eauto; try lia;
    destruct Hc; discriminate.
Qed.

Lemma Slice_cslice_result (L Start End : Z) f :
  is_size_t L -> 0 <= Start ->
  Slice.cslice (T := T) (L := L) Start End = Some f ->
  forall self : Slice.t T L,
    CSlice_length (f self) = End - Start /\
    forall m i,
      elem (T := T) m (CSlice._data (f self)) i =
      elem (T := T) m (CSlice._data (Slice.base self)) (Start + i).
Proof.
  intros HL HS Hf self. rewrite Slice_cslice_eq in Hf.
  destruct ((Start <=? L) && (End <=? L) && (Start <=? End) && (Start <? L))
    eqn:E; [|discriminate].
  injection Hf as <-. bool_to_Z. split.
  - unfold CSlice_length, CSlice.size. apply size_sub_small.
    + unfold is_size_t in *. lia.
    + lia.
  - intros m i. unfold elem. simpl. now rewrite ptr_add_add.
Qed.

(** X1.  Whenever a sub-view compiles, on any of [CSlice::cslice],
    [Slice::cslice], [Slice::slice], [Array::cslice] and [Array::slice], the
    view it returns has length [End - Start] and its element [i] is the
    element [Start + i] of the original, in every memory. *)
Theorem subview_contents (L Start End : Z) :
  is_size_t L -> 0 <= Start ->
  (forall f, CSlice.cslice (T := T) (L := L) Start End = Some f ->
     forall self,
       CSlice_length (f self) = End - Start /\
       forall m i, elem (T := T) m (CSlice._data (f self)) i =
                   elem (T := T) m (CSlice._data self) (Start + i)) /\
  (forall f, Slice.cslice (T := T) (L := L) Start End = Some f ->
     forall self,
       CSlice_length (f self) = End - Start /\
       forall m i, elem (T := T) m (CSlice._data (f self)) i =
                   elem (T := T) m (CSlice._data (Slice.base self))
                     (Start + i)) /\
  (forall f, Slice.slice (T := T) (L := L) Start End = Some f ->
     forall self,
       Slice_length (f self) = End - Start /\
       forall m i, elem (T := T) m (CSlice._data (Slice.base (f self))) i =
                   elem (T := T) m (CSlice._data (Slice.base self))
                     (Start + i)) /\
  (forall f, Array.cslice (T := T) (L := L) Start End = Some f ->
     forall self,
       CSlice_length (f self) = End - Start /\
       forall m i, elem (T := T) m (CSlice._data (f self)) i =
                   elem (T := T) m (Array._data self) (Start + i)) /\
  (forall f, Array.slice (T := T) (L := L) Start End = Some f ->
     forall self,
       Slice_length (f self) = End - Start /\
       forall m i, elem (T := T) m (CSlice._data (Slice.base (f self))) i =
                   elem (T := T) m (Array._data self) (Start + i)).
Proof.
  intros HL HS.
  split; [intros f Hf; exact (CSlice_cslice_result L Start End f HL HS Hf)|].
  split; [intros f Hf; exact (Slice_cslice_result L Start End f HL HS Hf)|].
  split; [intros f Hf; exact (Slice_slice_result L Start End f HL HS Hf)|].
  split; [intros f Hf; exact (Array_cslice_result L Start End f HL HS Hf)|].
  intros f Hf; exact (Array_slice_result L Start End f HL HS Hf).
Qed.

(** X2.  When each sub-view operation compiles.  [Array::cslice] and
    [Array::slice] compile exactly within the bounds [Start <= End <= L] of
    the assertion macro.  [CSlice::cslice], and the [cslice] that [Slice]
    inherits, also need [Start < L], since they take the pointer from
    [cdata<Start>()]; [Slice::slice] also needs [0 < L], since it takes the
    pointer from [data<0>()]. *)
Theorem subview_compile_conditions (L Start End : Z) :
  (instantiates (Array.cslice (T := T) (L := L) Start End) <->
   Start <= End <= L) /\
  (instantiates (Array.slice (T := T) (L := L) Start End) <->
   Start <= End <= L) /\
  (instantiates (CSlice.cslice (T := T) (L := L) Start End) <->
   Start <= End <= L /\ Start < L) /\
  (instantiates (Slice.cslice (T := T) (L := L) Start End) <->
   Start <= End <= L /\ Start < L) /\
  (instantiates (Slice.slice (T := T) (L := L) Start End) <->
   Start <= End <= L /\ 0 < L).
Proof.
  split; [apply Array_cslice_compiles|].
  split; [apply Array_slice_compiles|].
  split; [apply CSlice_cslice_compiles|].
  split; [apply Slice_cslice_compiles | apply Slice_slice_compiles].
Qed.

(** X3.  A compiled sub-view stays inside the view it is taken from: its
    first byte is not before the original's, and the end of its
    [End - Start] elements is not after the end of the original's [L]
    elements. *)
Theorem subview_within_parent (L Start End : Z) :
  is_size_t L -> 0 <= Start -> 0 < sizeof T ->
  (forall f, CSlice.cslice (T := T) (L := L) Start End = Some f ->
     forall self,
       CSlice._data self <= CSlice._data (f self) /\
       CSlice._data (f self) + CSlice_length (f self) * sizeof T
       <= CSlice._data self + CSlice_length self * sizeof T) /\
  (forall f, Slice.slice (T := T) (L := L) Start End = Some f ->
     forall self,
       CSlice._data (Slice.base self) <= CSlice._data (Slice.base (f self)) /\
       CSlice._data (Slice.base (f self)) + Slice_length (f self) * sizeof T
       <= CSlice._data (Slice.base self) + Slice_length self * sizeof T) /\
  (forall f, Array.cslice (T := T) (L := L) Start End = Some f ->
     forall self,
       Array._data self <= CSlice._data (f self) /\
       CSlice._data (f self) + CSlice_length (f self) * sizeof T
       <= Array._data self + Array.sizeof_ T L) /\
  (forall f, Array.slice (T := T) (L := L) Start End = Some f ->
     forall self,
       Array._data self <= CSlice._data (Slice.base (f self)) /\
       CSlice._data (Slice.base (f self)) + Slice_length (f self) * sizeof T
       <= Array._data self + Array.sizeof_ T L).
Proof.
  intros HL HS Hs.
  assert (Hlen : Start <= End <= L -> size_sub End Start = End - Start)
    by (intros Hb; apply size_sub_small; unfold is_size_t in *; lia).
  unfold CSlice_length, Slice_length, CSlice.size, Array.sizeof_.
  repeat split; intros;
    match goal with
    | H : _ = Some _ |- _ =>
        first [ rewrite CSlice_cslice_eq in H | rewrite Slice_slice_eq in H
              | rewrite Array_cslice_eq in H | rewrite Array_slice_eq in H ]
    end;
    match goal with
    | H : (if ?c then _ else _) = Some _ |- _ =>
        destruct c eqn:E; [|discriminate]; injection H as <-
    end;
    bool_to_Z; cbn [CSlice._data Slice.base Slice.make];
    rewrite ?ptr_add_0; unfold ptr_add; rewrite ?Hlen by lia; nia.
Qed.

End SubViewsMore.

(** X1 at a 4-byte array at address 100 and the sub-view [cslice<1, 3>()]. *)
Lemma subview_contents_witness :
  exists f,
    Array.cslice (P := target32) (T := byte) (L := 4) 1 3 = Some f /\
    CSlice_length (f (Array.mk 100)) = 3 - 1 /\
    forall m i, elem (T := byte) m (CSlice._data (f (Array.mk 100))) i =
                elem (T := byte) m 100 (1 + i).
Proof.
  assert (H4 : is_size_t (P := target32) 4)
    by (unfold is_size_t, SIZE_MAX; simpl; lia).
  assert (H1 : 0 <= 1) by lia.
  destruct (subview_contents (P := target32) (T := byte) 4 1 3 H4 H1)
    as (_ & _ & _ & Ha & _).
  eexists. split; [reflexivity|].
  apply (Ha _ eq_refl (Array.mk 100)).
Defined.

(** X3 at the same array and sub-view. *)
Lemma subview_within_parent_witness :
  exists f,
    Array.slice (P := target32) (T := byte) (L := 4) 1 3 = Some f /\
    100 <= CSlice._data (Slice.base (f (Array.mk 100))) /\
    CSlice._data (Slice.base (f (Array.mk 100)))
    + Slice_length (f (Array.mk 100)) * 1 <= 100 + 4.
Proof.
  assert (H4 : is_size_t (P := target32) 4)
    by (unfold is_size_t, SIZE_MAX; simpl; lia).
  assert (H1 : 0 <= 1) by lia.
  assert (Hs : 0 < sizeof byte) by reflexivity.
  destruct (subview_within_parent (P := target32) (T := byte) 4 1 3 H4 H1 Hs)
    as (_ & _ & _ & Ha).
  eexists. split; [reflexivity|].
  apply (Ha _ eq_refl (Array.mk 100)).
Defined.

(** ** Pointers to the data stay inside the view *)

Section DataInBounds.
Context {P : Platform} {T : Type} {CT : CType T}.

(** X4.  The pointer that a compiled [cdata<Offset>()] or [data<Offset>()]
    returns is the address of element [Offset], the one [operator[]] gives
    for the index [Offset], and the whole element lies inside the [L]
    elements of the view. *)
Theorem data_pointer_in_bounds (L Offset : Z) :
  0 <= Offset -> 0 < sizeof T ->
  (forall f, CSlice.cdata (T := T) (L := L) Offset = Some f ->
     forall self,
       f self = CSlice.operator_index self Offset /\
       CSlice._data self <= f self /\
       f self + sizeof T <= CSlice._data self + L * sizeof T) /\
  (forall f idx, Slice.data (T := T) (L := L) Offset = Some f ->
     Slice.operator_index (T := T) (L := L) = Some idx ->
     forall self,
       f self = idx self Offset /\
       CSlice._data (Slice.base self) <= f self /\
       f self + sizeof T <= CSlice._data (Slice.base self) + L * sizeof T) /\
  (forall f, Array.cdata (T := T) (L := L) Offset = Some f ->
     forall self,
       f self = Array.operator_index self Offset /\
       Array._data self <= f self /\
       f self + sizeof T <= Array._data self + Array.sizeof_ T L) /\
  (forall f, Array.data (T := T) (L := L) Offset = Some f ->
     forall self,
       f self = Array.operator_index self Offset /\
       Array._data self <= f self /\
       f self + sizeof T <= Array._data self + Array.sizeof_ T L).
Proof.
  intros HO Hs. unfold Array.sizeof_.
  rewrite CSlice_cdata_eq, Slice_data_eq, Array_cdata_eq, Array_data_eq,
    Slice_operator_index_eq.
  destruct (Offset <? L) eqn:E; bool_to_Z.
  - replace (0 <? L) with true by (symmetry; apply Z.ltb_lt; lia).
    repeat split; intros;
      repeat match goal with
        | H : Some _ = Some _ |- _ => injection H as <-
        end;
      unfold CSlice.operator_index, Array.operator_index;
      rewrite ?ptr_add_0; unfold ptr_add; try reflexivity; nia.
  - repeat split; intros; discriminate.
Qed.

End DataInBounds.

(** X4 at a 4-byte array at address 100 and [cdata<3>()]. *)
Lemma data_pointer_in_bounds_witness :
  exists f,
    Array.cdata (T := byte) (L := 4) 3 = Some f /\
    f (Array.mk 100) = Array.operator_index (T := byte) (L := 4)
                         (Array.mk 100) 3 /\
    100 <= f (Array.mk 100) /\
    f (Array.mk 100) + 1 <= 100 + 4.
Proof.
  assert (H3 : 0 <= 3) by lia.
  assert (Hs : 0 < sizeof byte) by reflexivity.
  destruct (data_pointer_in_bounds (T := byte) 4 3 H3 Hs)
    as (_ & _ & Ha & _).
  eexists. split; [reflexivity|].
  apply (Ha _ eq_refl (Array.mk 100)).
Defined.

(** ** A sub-view of a sub-view *)

Section SubViewsCompose.
Context {P : Platform} {T : Type} {CT : CType T}.

Lemma size_sub_shift (A C D : Z) :
  size_sub (A + D) (A + C) = size_sub D C.
Proof. unfold size_sub. f_equal. lia. Qed.

(** X5.  Taking [<C, D>] of the sub-view [<A, B>] is taking [<A+C, A+D>] of
    the original: whenever the two steps compile, the single step compiles
    too and gives a view with the same data pointer and the same length.
    So a chain of sub-views never leaves the original view. *)
Theorem subview_of_subview (L A B C D : Z) :
  is_size_t L -> 0 <= A -> 0 <= C ->
  (forall f g,
     CSlice.cslice (T := T) (L := L) A B = Some f ->
     CSlice.cslice (T := T) (L := size_sub B A) C D = Some g ->
     exists h,
       CSlice.cslice (T := T) (L := L) (A + C) (A + D) = Some h /\
       forall self,
         CSlice._data (g (f self)) = CSlice._data (h self) /\
         CSlice_length (g (f self)) = CSlice_length (h self)) /\
  (forall f g,
     Slice.slice (T := T) (L := L) A B = Some f ->
     Slice.slice (T := T) (L := size_sub B A) C D = Some g ->
     exists h,
       Slice.slice (T := T) (L := L) (A + C) (A + D) = Some h /\
       forall self,
         CSlice._data (Slice.base (g (f self)))
         = CSlice._data (Slice.base (h self)) /\
         Slice_length (g (f self)) = Slice_length (h self)) /\
  (forall f g,
     Array.cslice (T := T) (L := L) A B = Some f ->
     CSlice.cslice (T := T) (L := size_sub B A) C D = Some g ->
     exists h,
       Array.cslice (T := T) (L := L) (A + C) (A + D) = Some h /\
       forall self,
         CSlice._data (g (f self)) = CSlice._data (h self) /\
         CSlice_length (g (f self)) = CSlice_length (h self)) /\
  (forall f g,
     Array.slice (T := T) (L := L) A B = Some f ->
     Slice.slice (T := T) (L := size_sub B A) C D = Some g ->
     exists h,
       Array.slice (T := T) (L := L) (A + C) (A + D) = Some h /\
       forall self,
         CSlice._data (Slice.base (g (f self)))
         = CSlice._data (Slice.base (h self)) /\
         Slice_length (g (f self)) = Slice_length (h self)).
Proof.
  intros HL HA HC.
  assert (Hlen : A <= B <= L -> size_sub B A = B - A)
    by (intros Hb; apply size_sub_small; unfold is_size_t in *; lia).
  unfold CSlice_length, Slice_length, CSlice.size.
  repeat split; intros f g Hf Hg;
    first [ rewrite CSlice_cslice_eq in Hf | rewrite Slice_slice_eq in Hf
          | rewrite Array_cslice_eq in Hf | rewrite Array_slice_eq in Hf ];
    first [ rewrite CSlice_cslice_eq in Hg | rewrite Slice_slice_eq in Hg ];
    match type of Hf with
    | (if ?c then _ else _) = Some _ =>
        destruct c eqn:Ef; [|discriminate]; injection Hf as <-
    end;
    match type of Hg with
    | (if ?c then _ else _) = Some _ =>
        destruct c eqn:Eg; [|discriminate]; injection Hg as <-
    end;
    bool_to_Z;
    repeat match goal with
      | H : context [size_sub B A] |- _ => rewrite Hlen in H by lia
      end;
    first [ rewrite CSlice_cslice_eq | rewrite Slice_slice_eq
          | rewrite Array_cslice_eq | rewrite Array_slice_eq ];
    match goal with
    | |- exists h, (if ?c then _ else _) = Some h /\ _ =>
        replace c with true
          by (symmetry; repeat (apply andb_true_iff; split);
              first [apply Z.leb_le | apply Z.ltb_lt]; lia)
    end;
    eexists; (split; [reflexivity|]); intros self;
    cbn [CSlice._data Slice.base Slice.make];
    rewrite ?ptr_add_0, ?ptr_add_add, size_sub_shift; split; reflexivity.
Qed.

End SubViewsCompose.

(** X5 at an 8-byte array at address 100: [cslice<2, 7>()] then
    [cslice<1, 4>()] is [cslice<3, 6>()]. *)
Lemma subview_of_subview_witness :
  exists f g h,
    Array.cslice (P := target32) (T := byte) (L := 8) 2 7 = Some f /\
    CSlice.cslice (P := target32) (T := byte) 1 4 = Some g /\
    Array.cslice (P := target32) (T := byte) (L := 8) (2 + 1) (2 + 4)
    = Some h /\
    CSlice._data (g (f (Array.mk 100))) = CSlice._data (h (Array.mk 100)) /\
    CSlice_length (g (f (Array.mk 100))) = CSlice_length (h (Array.mk 100)).
Proof.
  assert (H8 : is_size_t (P := target32) 8)
    by (unfold is_size_t, SIZE_MAX; simpl; lia).
  assert (H2 : 0 <= 2) by lia.
  assert (H1 : 0 <= 1) by lia.
  destruct (subview_of_subview (P := target32) (T := byte) 8 2 7 1 4 H8 H2 H1)
    as (_ & _ & Ha & _).
  destruct (Ha _ _ eq_refl eq_refl) as (h & Hh & Hsame).
  do 3 eexists. split; [reflexivity|]. split; [reflexivity|].
  split; [exact Hh|]. apply Hsame.
Defined.

(** ** [assign] byte by byte *)

Section AssignBytes.
Context {P : Platform} {T : Type} {CT : CType T}.

(** What follows from the run of a compiled [assign] being the [memcpy]. *)
Lemma memcpy_run_bytes (d s : ptr) (n : Z) (m : mem) (r : option (unit * mem)) :
  0 <= n ->
  r = (if overlap d s n then None
       else Some (tt, store_bytes m d (load_bytes m s (Z.to_nat n)))) ->
  ((exists m', r = Some (tt, m')) <-> overlap d s n = false) /\
  forall m', r = Some (tt, m') ->
    load_bytes m' d (Z.to_nat n) = load_bytes m s (Z.to_nat n) /\
    forall a, a < d \/ d + n <= a -> m' a = m a.
Proof.
  intros Hn ->. destruct (overlap d s n).
  - split; [split; [intros [m' H] | intros H]; discriminate|].
    intros m' H. discriminate.
  - split; [split; eauto|].
    intros m' H. injection H as <-. split.
    + pose proof (load_store_bytes m d (load_bytes m s (Z.to_nat n))) as H.
      rewrite load_bytes_length in H. exact H.
    + intros a Ha. apply store_bytes_outside.
      rewrite load_bytes_length. lia.
Qed.

(** X6.  A compiled [assign] is a raw copy of bytes.  Its behaviour is
    defined exactly when the [L2 * sizeof(T)] bytes of the source do not
    overlap those at the start of the destination; then these bytes of the
    destination become the bytes of the source, every other byte of the
    memory (the source, the rest of the destination, anything else) is left
    as it was, and the bytes written lie within the [L] elements of the
    destination. *)
Theorem assign_is_byte_copy (L L2 : Z)
  (dest : Slice.t T L) (array : Array.t T L) (source : CSlice.t T L2)
  (m : mem) :
  0 < sizeof T -> is_size_t L -> object_size_ok T L2 ->
  (forall f, Slice.assign (T := T) (L := L) L2 = Some f ->
     ((exists m', f dest source m = Some (tt, m')) <->
      overlap (CSlice._data (Slice.base dest)) (CSlice._data source)
        (L2 * sizeof T) = false) /\
     L2 * sizeof T <= L * sizeof T /\
     forall m', f dest source m = Some (tt, m') ->
       load_bytes m' (CSlice._data (Slice.base dest))
         (Z.to_nat (L2 * sizeof T))
       = load_bytes m (CSlice._data source) (Z.to_nat (L2 * sizeof T)) /\
       forall a,
         a < CSlice._data (Slice.base dest) \/
         CSlice._data (Slice.base dest) + L2 * sizeof T <= a ->
         m' a = m a) /\
  (forall f, Array.assign (T := T) (L := L) L2 = Some f ->
     ((exists m', f array source m = Some (tt, m')) <->
      overlap (Array._data array) (CSlice._data source)
        (L2 * sizeof T) = false) /\
     L2 * sizeof T <= Array.sizeof_ T L /\
     forall m', f array source m = Some (tt, m') ->
       load_bytes m' (Array._data array) (Z.to_nat (L2 * sizeof T))
       = load_bytes m (CSlice._data source) (Z.to_nat (L2 * sizeof T)) /\
       forall a,
         a < Array._data array \/
         Array._data array + L2 * sizeof T <= a ->
         m' a = m a).
Proof.
  intros Hs HL Hsz.
  assert (Hbytes : CSlice.sizeBytes T L2 = L2 * sizeof T)
    by (apply size_mul_small; exact Hsz).
  split; intros f Hf.
  - apply Slice_assign_run in Hf. destruct Hf as [Hb Hrun].
    specialize (Hrun dest source m). rewrite Hbytes in Hrun.
    assert (Hn : 0 <= L2 * sizeof T) by nia.
    destruct (memcpy_run_bytes _ _ _ m _ Hn Hrun) as [Hdef Hcopy].
    split; [exact Hdef|]. split; [nia | exact Hcopy].
  - apply Array_assign_run in Hf; [|exact HL]. destruct Hf as [Hb Hrun].
    specialize (Hrun array source m). rewrite Hbytes in Hrun.
    assert (Hn : 0 <= L2 * sizeof T) by nia.
    destruct (memcpy_run_bytes _ _ _ m _ Hn Hrun) as [Hdef Hcopy].
    split; [exact Hdef|]. split; [unfold Array.sizeof_; nia | exact Hcopy].
Qed.

End AssignBytes.

(** X6 at a 4-byte destination at address 10 and a 2-byte source at
    address 20: the call is defined, and the two bytes at 10 become those
    at 20. *)
Lemma assign_is_byte_copy_witness :
  exists f m',
    Slice.assign (P := target32) (T := byte) (L := 4) 2 = Some f /\
    f (Slice.make 10) (CSlice.mk 20) mem_of_addresses = Some (tt, m') /\
    load_bytes m' 10 2 = load_bytes mem_of_addresses 20 2 /\
    forall a, a < 10 \/ 10 + 2 * 1 <= a -> m' a = mem_of_addresses a.
Proof.
  assert (Hs : 0 < sizeof byte) by reflexivity.
  assert (H4 : is_size_t (P := target32) 4)
    by (unfold is_size_t, SIZE_MAX; simpl; lia).
  assert (H2 : object_size_ok (P := target32) byte 2)
    by (unfold object_size_ok, is_size_t, SIZE_MAX; simpl; lia).
  destruct (assign_is_byte_copy (P := target32) (T := byte) 4 2
              (Slice.make 10) (Array.mk 10) (CSlice.mk 20)
              mem_of_addresses Hs H4 H2) as (Hslice & _).
  destruct (Hslice _ eq_refl) as (Hdef & _ & Hcopy).
  destruct (proj2 Hdef eq_refl) as (m' & Hm').
  exists (fun self data =>
            bind (memcpy (ptr_add (T := byte) (CSlice._data (Slice.base self)) 0)
                         (ptr_add (T := byte) (CSlice._data data) 0)
                         (CSlice.sizeBytes (P := target32) byte 2))
                 (fun _ => ret tt)), m'.
  split; [reflexivity|]. split; [exact Hm'|].
  exact (Hcopy m' Hm').
Defined.

(** ** Views of length zero *)

Section EmptyViews.
Context {P : Platform} {T : Type} {CT : CType T}.

(** X7.  On a view of length 0 no pointer to the data can be taken,
    because [cdata<0>()] asserts [0 < L]; so everything that goes through
    it is rejected when compiled: [data()], the [operator[]] of [Slice],
    [fill], [assign] into an empty destination or from an empty source,
    [operator<<] with an empty source, and the sub-views of an empty
    [CSlice] or [Slice].  An empty [Array] still gives its (empty)
    sub-views, which take the pointer from [_data] directly. *)
Theorem empty_views_rejected :
  CSlice.cdata (T := T) (L := 0) 0 = None /\
  Slice.data (T := T) (L := 0) 0 = None /\
  Array.cdata (T := T) (L := 0) 0 = None /\
  Array.data (T := T) (L := 0) 0 = None /\
  Slice.operator_index (T := T) (L := 0) = None /\
  Slice.fill (T := T) (L := 0) = None /\
  Array.fill (T := T) (L := 0) = None /\
  (forall L2, Slice.assign (T := T) (L := 0) L2 = None) /\
  (forall L, Slice.assign (T := T) (L := L) 0 = None) /\
  (forall L, Array.assign (T := T) (L := L) 0 = None) /\
  (forall L1, operator_shl (T := T) (L1 := L1) (L2 := 0) = None) /\
  (forall Start End, Slice.slice (T := T) (L := 0) Start End = None) /\
  (forall Start End, 0 <= Start ->
     CSlice.cslice (T := T) (L := 0) Start End = None) /\
  instantiates (Array.cslice (T := T) (L := 0) 0 0) /\
  instantiates (Array.slice (T := T) (L := 0) 0 0).
Proof.
  assert (Hassign0 : forall L, Slice.assign (T := T) (L := L) 0 = None).
  { intros L. rewrite Slice_assign_eq. cbn. now rewrite andb_false_r. }
  split; [reflexivity|]. split; [reflexivity|].
  split; [reflexivity|]. split; [reflexivity|].
  split; [reflexivity|]. split; [reflexivity|].
  split.
  { unfold Array.fill. rewrite Array_slice_eq.
    cbn [Z.leb Z.compare andb inst_bind].
    rewrite Slice_fill_eq. unfold size_sub, size_wrap.
    cbn [Z.sub Z.opp Z.add]. rewrite Zmod_0_l. reflexivity. }
  split.
  { intros L2. rewrite Slice_assign_eq. cbn [Z.ltb Z.compare].
    now rewrite andb_false_r. }
  split; [exact Hassign0|].
  split.
  { intros L. unfold Array.assign.
    destruct (static_assert (0 <=? L)); [|reflexivity]. cbn [inst_bind].
    destruct (Array.slice 0 L); [|reflexivity]. cbn [inst_bind].
    now rewrite Hassign0. }
  split.
  { intros L1. unfold operator_shl. now rewrite Hassign0. }
  split.
  { intros Start End. rewrite Slice_slice_eq. cbn [Z.ltb Z.compare].
    now rewrite andb_false_r. }
  split.
  { intros Start End HS. rewrite CSlice_cslice_eq.
    replace (Start <? 0) with false by (symmetry; apply Z.ltb_ge; lia).
    now rewrite andb_false_r. }
  split.
  { unfold instantiates. rewrite Array_cslice_eq. cbn. eauto. }
  unfold instantiates. rewrite Array_slice_eq. cbn. eauto.
Qed.

End EmptyViews.

(** ** [fill] writes inside the view only *)

Section FillFrame.
Context {P : Platform} {T : Type} {CT : CType T} {OK : CTypeOk T}.

(** X8.  A compiled [fill] changes no byte of the memory outside the [L]
    elements of the view or array it fills. *)
Theorem fill_writes_inside_only (L : Z)
  (dest : Slice.t T L) (array : Array.t T L) (v : T) (m : mem) :
  is_size_t L ->
  (forall f m', Slice.fill (T := T) (L := L) = Some f ->
     f dest v m = Some (tt, m') ->
     forall a,
       a < CSlice._data (Slice.base dest) \/
       CSlice._data (Slice.base dest) + L * sizeof T <= a ->
       m' a = m a) /\
  (forall f m', Array.fill (T := T) (L := L) = Some f ->
     f array v m = Some (tt, m') ->
     forall a,
       a < Array._data array \/ Array._data array + Array.sizeof_ T L <= a ->
       m' a = m a).
Proof.
  intros HL. split; intros f m' Hf Hrun a Ha.
  - apply Slice_fill_run in Hf. destruct Hf as [Hpos Hf].
    rewrite Hf in Hrun. unfold for_ in Hrun.
    destruct (fill_loop L (CSlice._data (Slice.base dest)) v HL
                (Z.to_nat (L - 0)) 0 m) as (m0 & Hm0 & _ & Hframe);
      [lia | lia |].
    rewrite Hm0 in Hrun. injection Hrun as <-. apply Hframe. lia.
  - unfold Array.fill in Hf. rewrite Array_slice_eq in Hf.
    destruct ((0 <=? L) && (L <=? L) && (0 <=? L)); [|discriminate].
    cbn [inst_bind] in Hf.
    destruct Slice.fill as [g|] eqn:Eg; [|discriminate].
    cbn [inst_bind] in Hf. injection Hf as <-.
    apply Slice_fill_run in Eg. destruct Eg as [Hpos Hg].
    assert (HL0 : size_sub L 0 = L)
      by (rewrite size_sub_small; unfold is_size_t in *; lia).
    rewrite Hg in Hrun. unfold for_ in Hrun.
    cbn [Slice.base Slice.make CSlice._data] in Hrun.
    rewrite ptr_add_0 in Hrun.
    destruct (fill_loop (size_sub L 0) (Array._data array) v
                ltac:(rewrite HL0; exact HL)
                (Z.to_nat (size_sub L 0 - 0)) 0 m)
      as (m0 & Hm0 & _ & Hframe); [lia | lia |].
    rewrite Hm0 in Hrun. injection Hrun as <-. apply Hframe.
    unfold Array.sizeof_ in Ha. rewrite HL0. lia.
Qed.

End FillFrame.

(** X8 at a 3-byte array at address 10: the bytes at 9 and 13 stay. *)
Lemma fill_writes_inside_only_witness :
  exists f m',
    Array.fill (P := target32) (T := byte) (L := 3) = Some f /\
    f (Array.mk 10) (byte.of_Z 7) mem_of_addresses = Some (tt, m') /\
    m' 9 = mem_of_addresses 9 /\ m' 13 = mem_of_addresses 13.
Proof.
  assert (H3 : is_size_t (P := target32) 3)
    by (unfold is_size_t, SIZE_MAX; simpl; lia).
  destruct (fill_writes_inside_only (P := target32) (T := byte) 3
              (Slice.make 10) (Array.mk 10) (byte.of_Z 7) mem_of_addresses H3)
    as (_ & Ha).
  do 2 eexists. split; [reflexivity|]. split; [reflexivity|].
  split; apply (Ha _ _ eq_refl eq_refl); simpl; lia.
Defined.

(** ** How the writes compose *)

Section WritesCompose.
Context {P : Platform} {T : Type} {CT : CType T} {OK : CTypeOk T}.

Lemma overlap_of_separate (d s : ptr) (n k : Z) :
  0 <= n <= k -> separate s n d k -> overlap d s n = false.
Proof.
  unfold separate, overlap. intros Hn [H | H].
  - apply andb_false_iff. left. apply andb_false_iff. right.
    apply Z.ltb_ge. lia.
  - apply andb_false_iff. right. apply Z.ltb_ge. lia.
Qed.

(** X9.  [dest.fill(v)] followed by [dest.assign(source)], for a source of
    [0 < L2 <= L] elements that lies outside the destination: both calls
    compile and run, and afterwards the first [L2] elements of the
    destination are those of the source and the remaining [L - L2] elements
    are [v]. *)
Theorem fill_then_assign (L L2 : Z)
  (dest : Slice.t T L) (source : CSlice.t T L2) (v : T) (m : mem) :
  is_size_t L -> object_size_ok T L2 -> 0 < L2 <= L ->
  separate (CSlice._data source) (L2 * sizeof T)
           (CSlice._data (Slice.base dest)) (L * sizeof T) ->
  exists fill_ assign_ m1 m2,
    Slice.fill (T := T) (L := L) = Some fill_ /\
    Slice.assign (T := T) (L := L) L2 = Some assign_ /\
    fill_ dest v m = Some (tt, m1) /\
    assign_ dest source m1 = Some (tt, m2) /\
    (forall i, 0 <= i < L2 ->
       elem (T := T) m2 (CSlice._data (Slice.base dest)) i =
       elem (T := T) m (CSlice._data source) i) /\
    (forall i, L2 <= i < L ->
       elem (T := T) m2 (CSlice._data (Slice.base dest)) i = v).
Proof.
  intros HL Hsz Hb Hsep. pose proof (sizeof_pos (T := T)) as Hs.
  destruct (proj2 (Slice_fill_compiles L) ltac:(lia)) as [ff Hff].
  destruct (proj2 (Slice_assign_compiles (T := T) L L2) Hb) as [fa Hfa].
  exists ff, fa.
  apply Slice_fill_run in Hff as Hfr. destruct Hfr as [_ Hfr].
  apply Slice_assign_run in Hfa as Har. destruct Har as [_ Har].
  destruct (fill_loop L (CSlice._data (Slice.base dest)) v HL
              (Z.to_nat (L - 0)) 0 m) as (m1 & Hm1 & Hset & Hframe);
    [lia | lia |].
  exists m1. eexists.
  split; [exact Hff|]. split; [exact Hfa|].
  split; [rewrite Hfr; exact Hm1|].
  rewrite Har. unfold CSlice.sizeBytes. rewrite size_mul_small by exact Hsz.
  rewrite (overlap_of_separate _ _ _ (L * sizeof T)) by (try nia; exact Hsep).
  split; [reflexivity|].
  destruct (store_load_copies_prefix (T := T) L2
              (CSlice._data (Slice.base dest)) (CSlice._data source) m1
              Hs ltac:(lia)) as [Hcopy Hkeep].
  split.
  - intros i Hi. rewrite Hcopy by exact Hi. apply elem_ext.
    intros a Ha. apply Hframe. unfold separate in Hsep. nia.
  - intros i Hi. rewrite Hkeep by lia. apply Hset. lia.
Qed.

(** X10.  Two chained writes, [(dest << a) << b], for sources of [La] and
    [Lb] elements with [La + Lb <= L] that lie outside the destination:
    both instantiations compile and run; afterwards the destination holds
    the elements of [a] at indices [0 .. La-1], those of [b] at
    [La .. La+Lb-1], and its old elements from [La + Lb] on; the view that
    is returned has length [L - La - Lb] and starts [La + Lb] elements into
    the destination. *)
Theorem write_chain (L La Lb : Z)
  (dest : Slice.t T L) (a : CSlice.t T La) (b : CSlice.t T Lb) (m : mem) :
  object_size_ok T L -> 0 < La -> 0 < Lb -> La + Lb <= L ->
  separate (CSlice._data a) (La * sizeof T)
           (CSlice._data (Slice.base dest)) (L * sizeof T) ->
  separate (CSlice._data b) (Lb * sizeof T)
           (CSlice._data (Slice.base dest)) (L * sizeof T) ->
  exists write_a write_b rest1 rest2 m1 m2,
    operator_shl (T := T) (L1 := L) (L2 := La) = Some write_a /\
    operator_shl (T := T) (L1 := size_sub L La) (L2 := Lb) = Some write_b /\
    write_a dest a m = Some (rest1, m1) /\
    write_b rest1 b m1 = Some (rest2, m2) /\
    (forall i, 0 <= i < La ->
       elem (T := T) m2 (CSlice._data (Slice.base dest)) i =
       elem (T := T) m (CSlice._data a) i) /\
    (forall j, 0 <= j < Lb ->
       elem (T := T) m2 (CSlice._data (Slice.base dest)) (La + j) =
       elem (T := T) m (CSlice._data b) j) /\
    (forall i, La + Lb <= i ->
       elem (T := T) m2 (CSlice._data (Slice.base dest)) i =
       elem (T := T) m (CSlice._data (Slice.base dest)) i) /\
    Slice_length rest2 = L - La - Lb /\
    CSlice._data (Slice.base rest2) =
    ptr_add (T := T) (CSlice._data (Slice.base dest)) (La + Lb).
Proof.
  intros Hsz HLa HLb Hsum Hsa Hsb. pose proof (sizeof_pos (T := T)) as Hs.
  unfold object_size_ok in Hsz.
  assert (HL : is_size_t L) by (unfold is_size_t in *; nia).
  assert (E1 : size_sub L La = L - La)
    by (apply size_sub_small; [exact HL | lia]).
  assert (HszA : is_size_t (La * sizeof T)) by (unfold is_size_t in *; nia).
  assert (HszB : is_size_t (Lb * sizeof T)) by (unfold is_size_t in *; nia).
  destruct (proj2 (operator_shl_compiles (T := T) L La) ltac:(lia))
    as [wa Hwa].
  assert (HbB : 0 < Lb <= size_sub L La) by lia.
  destruct (proj2 (operator_shl_compiles (T := T) (size_sub L La) Lb) HbB)
    as [wb Hwb].
  exists wa, wb.
  apply operator_shl_run in Hwa as Hra. destruct Hra as [_ Hra].
  apply operator_shl_run in Hwb as Hrb. destruct Hrb as [_ Hrb].
  set (d := CSlice._data (Slice.base dest)) in *.
  do 4 eexists.
  split; [exact Hwa|]. split; [exact Hwb|].
  split.
  { rewrite Hra. unfold CSlice.sizeBytes.
    rewrite size_mul_small by exact HszA. fold d.
    rewrite (overlap_of_separate _ _ _ (L * sizeof T))
      by (try nia; exact Hsa).
    reflexivity. }
  split.
  { rewrite Hrb. unfold CSlice.sizeBytes.
    rewrite size_mul_small by exact HszB.
    cbn [Slice.base Slice.make CSlice._data].
    rewrite overlap_of_separate with (k := (L - La) * sizeof T);
      [reflexivity | nia |].
    unfold separate, ptr_add in *. nia. }
  set (m1 := store_bytes m d
               (load_bytes m (CSlice._data a) (Z.to_nat (La * sizeof T)))).
  set (q := ptr_add (T := T) d La).
  set (m2 := store_bytes m1 q
               (load_bytes m1 (CSlice._data b) (Z.to_nat (Lb * sizeof T)))).
  destruct (store_load_copies_prefix (T := T) La d (CSlice._data a) m
              Hs ltac:(lia)) as [Hcopy1 Hkeep1].
  destruct (store_load_copies_prefix (T := T) Lb q (CSlice._data b) m1
              Hs ltac:(lia)) as [Hcopy2 Hkeep2].
  fold m1 in Hcopy1, Hkeep1. fold m2 in Hcopy2, Hkeep2.
  assert (Hshift : forall mm k,
             elem (T := T) mm d (La + k) = elem (T := T) mm q k).
  { intros mm k. unfold elem, q. now rewrite ptr_add_add. }
  assert (Hm1 : forall x, x < d \/ d + La * sizeof T <= x -> m1 x = m x).
  { intros x Hx. unfold m1. apply store_bytes_outside.
    rewrite load_bytes_length. lia. }
  assert (Hm2 : forall x, x < q \/ q + Lb * sizeof T <= x -> m2 x = m1 x).
  { intros x Hx. unfold m2. apply store_bytes_outside.
    rewrite load_bytes_length. lia. }
  split.
  { intros i Hi. rewrite <- Hcopy1 by exact Hi. apply elem_ext.
    intros x Hx. apply Hm2. unfold q, ptr_add. nia. }
  split.
  { intros j Hj. rewrite Hshift, Hcopy2 by exact Hj. apply elem_ext.
    intros x Hx. apply Hm1. unfold separate in Hsb. nia. }
  split.
  { intros i Hi. replace i with (La + (i - La)) at 1 by lia.
    rewrite Hshift, Hkeep2 by lia. rewrite <- Hshift.
    replace (La + (i - La)) with i by lia. apply Hkeep1. lia. }
  split.
  { unfold Slice_length, CSlice.size. rewrite E1.
    rewrite size_sub_small; [lia | unfold is_size_t in *; lia | lia]. }
  cbn [Slice.base Slice.make CSlice._data]. unfold q.
  now rewrite ptr_add_add.
Qed.

End WritesCompose.

(** X9 at a 4-byte destination at address 10, filled with 0, and a 2-byte
    source at address 20. *)
Lemma fill_then_assign_witness :
  exists fill_ assign_ m1 m2,
    Slice.fill (P := target32) (T := byte) (L := 4) = Some fill_ /\
    Slice.assign (P := target32) (T := byte) (L := 4) 2 = Some assign_ /\
    fill_ (Slice.make 10) Byte.x00 mem_of_addresses = Some (tt, m1) /\
    assign_ (Slice.make 10) (CSlice.mk 20) m1 = Some (tt, m2) /\
    (forall i, 0 <= i < 2 ->
       elem (T := byte) m2 10 i = elem (T := byte) mem_of_addresses 20 i) /\
    (forall i, 2 <= i < 4 -> elem (T := byte) m2 10 i = Byte.x00).
Proof.
  apply (fill_then_assign (P := target32) (T := byte) 4 2
           (Slice.make 10) (CSlice.mk 20) Byte.x00 mem_of_addresses).
  - unfold is_size_t, SIZE_MAX. simpl. lia.
  - unfold object_size_ok, is_size_t, SIZE_MAX. simpl. lia.
  - lia.
  - unfold separate. simpl. lia.
Defined.

(** X10 at a 10-byte destination at address 10 and sources of 3 and 4
    bytes at addresses 30 and 40. *)
Lemma write_chain_witness :
  exists write_a write_b rest1 rest2 m1 m2,
    operator_shl (P := target32) (T := byte) (L1 := 10) (L2 := 3)
    = Some write_a /\
    operator_shl (P := target32) (T := byte) (L2 := 4) = Some write_b /\
    write_a (Slice.make 10) (CSlice.mk 30) mem_of_addresses
    = Some (rest1, m1) /\
    write_b rest1 (CSlice.mk 40) m1 = Some (rest2, m2) /\
    (forall i, 0 <= i < 3 ->
       elem (T := byte) m2 10 i = elem (T := byte) mem_of_addresses 30 i) /\
    (forall j, 0 <= j < 4 ->
       elem (T := byte) m2 10 (3 + j)
       = elem (T := byte) mem_of_addresses 40 j) /\
    (forall i, 3 + 4 <= i ->
       elem (T := byte) m2 10 i = elem (T := byte) mem_of_addresses 10 i) /\
    Slice_length rest2 = 10 - 3 - 4 /\
    CSlice._data (Slice.base rest2) = ptr_add (T := byte) 10 (3 + 4).
Proof.
  apply (write_chain (P := target32) (T := byte) 10 3 4
           (Slice.make 10) (CSlice.mk 30) (CSlice.mk 40) mem_of_addresses).
  - unfold object_size_ok, is_size_t, SIZE_MAX. simpl. lia.
  - lia.
  - lia.
  - lia.
  - unfold separate. simpl. lia.
  - unfold separate. simpl. lia.
Defined.

(** ** [operator^=] from any starting index *)

Section XorEffect.
Context {P : Platform} {T : Type} {CT : CType T} {OK : CTypeOk T}.
Context {X : XorByte T}.

(** X11.  Whatever index [i] the counter of [operator^=] starts at, the
    call runs and returns the array it was given; each element from [i] to
    [L - 1] is XORed with [v] once, the elements below [i] and every byte
    outside the array keep their values, and when [i >= L] nothing in the
    memory changes. *)
Theorem xor_assign_effect (L i : Z) (array : Array.t T L) (v : byte)
  (m : mem) :
  is_size_t L -> 0 <= i ->
  exists m',
    operator_xor_assign i array v m = Some (array, m') /\
    (forall j, i <= j < L ->
       elem (T := T) m' (Array._data array) j =
       xor_byte (elem (T := T) m (Array._data array) j) v) /\
    (forall j, 0 <= j < i ->
       elem (T := T) m' (Array._data array) j =
       elem (T := T) m (Array._data array) j) /\
    (forall a,
       a < Array._data array \/ Array._data array + Array.sizeof_ T L <= a ->
       m' a = m a) /\
    (L <= i -> forall a, m' a = m a).
Proof.
  intros HL Hi. pose proof (sizeof_pos (T := T)) as Hs.
  unfold operator_xor_assign, for_, Array.operator_index, Array.sizeof_.
  destruct (xor_loop L (Array._data array) v HL (Z.to_nat (L - i)) i m
              Hi eq_refl) as (m' & Hrun & Hset & Hframe).
  exists m'. unfold bind at 1. rewrite Hrun.
  split; [reflexivity|]. split; [exact Hset|].
  split; [intros j Hj; apply elem_ext; intros a Ha; apply Hframe; nia|].
  split; [intros a Ha; apply Hframe; nia|].
  intros Hge a. replace (Z.to_nat (L - i)) with 0%nat in Hrun by lia.
  cbn in Hrun. injection Hrun as <-. reflexivity.
Qed.

End XorEffect.

(** X11 at a 4-byte array at address 100 and the counter starting at 2. *)
Lemma xor_assign_effect_witness :
  exists m',
    operator_xor_assign (P := target32) (T := byte) (L := 4) 2
      (Array.mk 100) (byte.of_Z 255) mem_of_addresses
    = Some (Array.mk 100, m') /\
    (forall j, 2 <= j < 4 ->
       elem (T := byte) m' 100 j
       = xor_byte (elem (T := byte) mem_of_addresses 100 j) (byte.of_Z 255)) /\
    (forall j, 0 <= j < 2 ->
       elem (T := byte) m' 100 j = elem (T := byte) mem_of_addresses 100 j).
Proof.
  assert (H4 : is_size_t (P := target32) 4)
    by (unfold is_size_t, SIZE_MAX; simpl; lia).
  assert (H2 : 0 <= 2) by lia.
  destruct (xor_assign_effect (P := target32) (T := byte) 4 2 (Array.mk 100)
              (byte.of_Z 255) mem_of_addresses H4 H2)
    as (m' & Hrun & Hset & Hlow & _).
  exists m'. split; [exact Hrun|]. split; [exact Hset | exact Hlow].
Defined.


(** ** What [cast] gives access to *)

Section CastAccess.
Context {P : Platform} (T : Type) {CT : CType T}.

(** X12.  The object that a compiled [cast<T>] points to lies inside the
    array: it starts at the array's first byte and its [sizeof(T)] bytes end
    no later than the array does.  Reading it gives the value whose
    representation is the array's elements [0 .. sizeof(T)-1], as
    [operator[]] reaches them. *)
Theorem cast_within_array (L : Z) (array : ByteArray L) (m : mem) :
  forall f, cast T (L := L) = Some f ->
    f array = Array.operator_index array 0 /\
    f array + sizeof T <= Array._data array + Array.sizeof_ byte L /\
    load (T := T) (f array) m
    = Some (decode
              (map (fun i => elem (T := byte) m
                               (Array.operator_index array (Z.of_nat i)) 0)
                   (seq 0 (Z.to_nat (sizeof T)))), m).
Proof.
  intros f Hf. rewrite cast_eq in Hf.
  destruct ((sizeof T <=? L * 1) && (0 <? L)) eqn:E; [|discriminate].
  injection Hf as <-. bool_to_Z.
  unfold Array.operator_index, Array.sizeof_. rewrite !ptr_add_0.
  split; [reflexivity|]. split; [cbn [sizeof uchar]; lia|].
  unfold load. do 3 f_equal. unfold load_bytes. apply map_ext.
  intros i. unfold elem. cbn [decode uchar sizeof].
  change (Z.to_nat 1) with 1%nat. cbn [load_bytes map seq nth].
  f_equal. unfold ptr_add. cbn [sizeof uchar]. lia.
Qed.

(** X13.  A value stored through the pointer of the mutable [cast<T>] is
    the value read through the pointer of the const [cast<T>], and the
    store changes no byte outside the array. *)
Theorem cast_store_load {OK : CTypeOk T} (L : Z) (array : ByteArray L)
  (v : T) (m : mem) :
  forall f_mut f_const,
    cast_mut T (L := L) = Some f_mut ->
    cast T (L := L) = Some f_const ->
    exists m',
      store (f_mut array) v m = Some (tt, m') /\
      load (T := T) (f_const array) m' = Some (v, m') /\
      forall a,
        a < Array._data array \/
        Array._data array + Array.sizeof_ byte L <= a ->
        m' a = m a.
Proof.
  intros fm fc Hm Hc. rewrite cast_mut_eq in Hm. rewrite cast_eq in Hc.
  destruct ((sizeof T <=? L * 1) && (0 <? L)) eqn:E; [|discriminate].
  injection Hm as <-. injection Hc as <-. bool_to_Z.
  rewrite !ptr_add_0. eexists. split; [reflexivity|]. split.
  - unfold load. do 2 f_equal.
    apply load_after_store with (m := m). reflexivity.
  - intros a Ha. apply store_bytes_outside. rewrite encode_length.
    unfold Array.sizeof_ in Ha. cbn [sizeof uchar] in Ha. lia.
Qed.

End CastAccess.

(** X12 at a 37-byte array at address 100 and the message type. *)
Lemma cast_within_array_witness :
  exists f,
    cast (P := target32) Msg (L := 37) = Some f /\
    f (Array.mk 100) = 100 /\
    f (Array.mk 100) + 37 <= 100 + 37.
Proof.
  assert (Hc : cast (P := target32) Msg (L := 37)
               = Some (fun array => ptr_add (T := byte) (Array._data array) 0))
    by (rewrite cast_eq; reflexivity).
  destruct (cast_within_array (P := target32) Msg 37 (Array.mk 100)
              mem_of_addresses _ Hc) as (Hp & Hin & _).
  eexists. split; [exact Hc|].
  split; [exact Hp | exact Hin].
Defined.

(** X13 at a 4-byte array at address 100 and the type [unsigned char]. *)
Lemma cast_store_load_witness :
  exists f_mut f_const m',
    cast_mut (P := target32) byte (L := 4) = Some f_mut /\
    cast (P := target32) byte (L := 4) = Some f_const /\
    store (f_mut (Array.mk 100)) (byte.of_Z 7) mem_of_addresses
    = Some (tt, m') /\
    load (T := byte) (f_const (Array.mk 100)) m' = Some (byte.of_Z 7, m').
Proof.
  assert (Hc : cast (P := target32) byte (L := 4)
               = Some (fun array => ptr_add (T := byte) (Array._data array) 0))
    by (rewrite cast_eq; reflexivity).
  assert (Hm : cast_mut (P := target32) byte (L := 4)
               = Some (fun array => ptr_add (T := byte) (Array._data array) 0))
    by (rewrite cast_mut_eq; reflexivity).
  destruct (cast_store_load (P := target32) byte 4 (Array.mk 100)
              (byte.of_Z 7) mem_of_addresses _ _ Hm Hc)
    as (m' & Hs & Hl & _).
  do 2 eexists. exists m'.
  split; [exact Hm|]. split; [exact Hc|].
  split; [exact Hs | exact Hl].
Defined.

(** ** A view aliases the array it is taken from *)

Section Aliasing.
Context {P : Platform} {T : Type} {CT : CType T} {OK : CTypeOk T}.

(** X14.  A store through [operator[]] of the slice [array.slice<Start,
    End>()] at index [i] is a store into the array at index [Start + i]:
    [array[Start + i]] then reads the value, and no other element of the
    array changes.  The index [i] is not checked against the length of the
    slice: this holds for every [i]. *)
Theorem store_through_slice (L Start End i : Z) (array : Array.t T L)
  (v : T) (m : mem) :
  forall slice_ index,
    Array.slice (T := T) (L := L) Start End = Some slice_ ->
    Slice.operator_index (T := T) (L := size_sub End Start) = Some index ->
    exists m',
      store (index (slice_ array) i) v m = Some (tt, m') /\
      load (T := T) (Array.operator_index array (Start + i)) m'
      = Some (v, m') /\
      forall j, j <> Start + i ->
        elem (T := T) m' (Array._data array) j =
        elem (T := T) m (Array._data array) j.
Proof.
  intros sl idx Hsl Hidx. pose proof (sizeof_pos (T := T)) as Hs.
  rewrite Array_slice_eq in Hsl. rewrite Slice_operator_index_eq in Hidx.
  destruct ((Start <=? L) && (End <=? L) && (Start <=? End));
    [|discriminate].
  destruct (0 <? size_sub End Start); [|discriminate].
  injection Hsl as <-. injection Hidx as <-.
  cbn [Slice.base Slice.make CSlice._data].
  rewrite ptr_add_0, ptr_add_add. unfold Array.operator_index.
  eexists. split; [reflexivity|]. split.
  - unfold load. do 2 f_equal.
    apply load_after_store with (m := m). reflexivity.
  - intros j Hj. apply elem_ext. intros a Ha.
    apply store_bytes_outside. rewrite encode_length. unfold ptr_add.
    destruct (Z.lt_ge_cases j (Start + i)); nia.
Qed.

End Aliasing.

(** X14 at a 6-byte array at address 100, the slice [<2, 5>] and index 1. *)
Lemma store_through_slice_witness :
  exists slice_ index m',
    Array.slice (P := target32) (T := byte) (L := 6) 2 5 = Some slice_ /\
    Slice.operator_index (T := byte) = Some index /\
    store (index (slice_ (Array.mk 100)) 1) (byte.of_Z 7) mem_of_addresses
    = Some (tt, m') /\
    load (T := byte)
      (Array.operator_index (T := byte) (L := 6) (Array.mk 100) (2 + 1)) m'
    = Some (byte.of_Z 7, m').
Proof.
  destruct (store_through_slice (P := target32) (T := byte) 6 2 5 1
              (Array.mk 100) (byte.of_Z 7) mem_of_addresses _ _
              eq_refl eq_refl) as (m' & Hs & Hl & _).
  do 2 eexists. exists m'.
  split; [reflexivity|]. split; [reflexivity|].
  split; [exact Hs | exact Hl].
Defined.

(** ** [sizeBytes()] and the wrap-around *)

Section SizeBytes.
Context {P : Platform} (T : Type) {CT : CType T}.

(** X16.  [sizeBytes()] is computed in [size_t]: its value is always a
    [size_t], and it is the number of bytes [L * sizeof(T)] of the [L]
    elements exactly when that number is itself a [size_t]; for a length so
    large that the product overflows it is a smaller number.  On the
    lengths where it is exact, the bytes of a destination split into those
    of a source of [L2 <= L] elements and those of the rest that
    [operator<<] returns. *)
Theorem sizeBytes_exact_iff (L L2 : Z) :
  is_size_t (CSlice.sizeBytes T L) /\
  (CSlice.sizeBytes T L = L * sizeof T <-> object_size_ok T L) /\
  (object_size_ok T L -> 0 < sizeof T -> 0 <= L2 <= L ->
   CSlice.sizeBytes T L2 + CSlice.sizeBytes T (size_sub L L2)
   = CSlice.sizeBytes T L).
Proof.
  pose proof size_modulus_ge as Hpow.
  assert (Hrange : forall x, 0 <= size_wrap x <= SIZE_MAX).
  { intros x. unfold size_wrap, SIZE_MAX.
    assert (Hp : 0 < 2 ^ size_bits) by lia.
    pose proof (Z.mod_pos_bound x (2 ^ size_bits) Hp). lia. }
  unfold CSlice.sizeBytes, size_mul, object_size_ok.
  split; [apply Hrange|]. split.
  - split.
    + intros H. unfold is_size_t. rewrite <- H. apply Hrange.
    + apply size_wrap_small.
  - intros Hfit Hs Hb. unfold is_size_t in Hfit.
    assert (HL : is_size_t L) by (unfold is_size_t; nia).
    rewrite size_sub_small by (try exact HL; lia).
    rewrite !size_wrap_small by (unfold is_size_t; nia). lia.
Qed.

End SizeBytes.
